(** * StarrTrakt: Sonarr/Radarr events to Trakt watchlist mutations

    A shallow embedding of the two variants of the program,
    [starrtrakt.py] (single file) and [common.py] + [radarr_trakt.py]
    (handler classes), together with the properties of the token
    life cycle and of the retry-on-401 protocol.

    Python values are embedded as the JSON fragment the program handles,
    effects (token file, clock, standard input, network, log and
    standard output) as an explicit world threaded through a
    state-and-exception monad. *)

From Stdlib Require Import String Ascii List ZArith QArith Bool Lia.
From Stdlib Require Import DecimalString DecimalPos DecimalN.
Import ListNotations.

Local Open Scope Z_scope.
Local Open Scope list_scope.
Local Open Scope string_scope.

(** ** Python values *)

(** What [json.loads] can return, with [None] as [JNull].  Numbers are the
    integers; a dict is an association list in insertion order, since
    [json.dump] writes the keys in that order. *)
#[local] Unset Elimination Schemes.
Inductive json : Type :=
| JNull
| JBool (b : bool)
| JInt (n : Z)
| JStr (s : string)
| JArr (l : list json)
| JObj (m : list (string * json)).
#[local] Set Elimination Schemes.

(** Exceptions.  All but [SystemExit] derive from [Exception]. *)
Inductive exn : Type :=
| Exception (msg : string)
| URLError (reason : string)
| HTTPError (code : Z) (body : string)
| JSONDecodeError
| KeyError (key : string)
| TypeError
| AttributeError
| ValueError
| EOFError
| SystemExit (code : Z).

Definition is_Exception (e : exn) : bool :=
  match e with
  | SystemExit _ => false
  | _ => true
  end.

Inductive result (A : Type) : Type :=
| Ok (a : A)
| Raise (e : exn).
Arguments Ok {A} a.
Arguments Raise {A} e.

(** *** Strings *)

Definition ascii_in (c : ascii) (lo hi : N) : bool :=
  (N.leb lo (N_of_ascii c) && N.leb (N_of_ascii c) hi)%bool.

(** A string is the sequence of its code points, all below 256. *)

(** [str.lower()]: the letters A..Z and the capitals of Latin-1. *)
Definition lower_char (c : ascii) : ascii :=
  if (ascii_in c 65 90 || ascii_in c 192 214 || ascii_in c 216 222)%bool
  then ascii_of_N (N_of_ascii c + 32)
  else c.

Fixpoint lower (s : string) : string :=
  match s with
  | EmptyString => EmptyString
  | String c r => String (lower_char c) (lower r)
  end.

(** [str.isspace()]: tab to carriage return, the four separators 28..31,
    the space, next line (133) and the no-break space (160). *)
Definition is_space (c : ascii) : bool :=
  (ascii_in c 9 13 || ascii_in c 28 32 || ascii_in c 133 133
   || ascii_in c 160 160)%bool.

Fixpoint lstrip (s : string) : string :=
  match s with
  | EmptyString => EmptyString
  | String c r => if is_space c then lstrip r else s
  end.

Fixpoint rstrip (s : string) : string :=
  match s with
  | EmptyString => EmptyString
  | String c r =>
      match rstrip r with
      | EmptyString => if is_space c then EmptyString else String c EmptyString
      | r' => String c r'
      end
  end.

Definition strip (s : string) : string := rstrip (lstrip s).

Definition nonempty (s : string) : bool :=
  match s with EmptyString => false | _ => true end.

(** What follows [p] in [s], when [s] starts with [p]. *)
Fixpoint strip_prefix (p s : string) : option string :=
  match p with
  | EmptyString => Some s
  | String a p' =>
      match s with
      | String b s' => if Ascii.eqb a b then strip_prefix p' s' else None
      | EmptyString => None
      end
  end.

(** [s.startswith(p)] *)
Definition starts_with (p s : string) : bool :=
  match strip_prefix p s with Some _ => true | None => false end.

(** [sub in s] on strings. *)
Fixpoint contains_str (sub s : string) : bool :=
  (starts_with sub s ||
   match s with
   | EmptyString => false
   | String _ r => contains_str sub r
   end)%bool.

(** [str(n)] for an integer. *)
Definition str_Z (n : Z) : string :=
  match n with
  | Z0 => "0"
  | Zpos p => NilEmpty.string_of_uint (Pos.to_uint p)
  | Zneg p => String "-" (NilEmpty.string_of_uint (Pos.to_uint p))
  end.

(** *** Truth value, membership, subscription, [.get] *)

Definition truthy (v : json) : bool :=
  match v with
  | JNull => false
  | JBool b => b
  | JInt n => negb (n =? 0)%Z
  | JStr s => nonempty s
  | JArr l => match l with [] => false | _ => true end
  | JObj m => match m with [] => false | _ => true end
  end.

Fixpoint dict_get (m : list (string * json)) (k : string) : option json :=
  match m with
  | [] => None
  | (k', v) :: r => if String.eqb k k' then Some v else dict_get r k
  end.

(** [d[k] = v]: replaces the value of an existing key in place, appends a
    new key. *)
Fixpoint dict_set (m : list (string * json)) (k : string) (v : json)
  : list (string * json) :=
  match m with
  | [] => [(k, v)]
  | (k', v') :: r =>
      if String.eqb k k' then (k', v) :: r else (k', v') :: dict_set r k v
  end.

Definition is_JStr (s : string) (v : json) : bool :=
  match v with JStr s' => String.eqb s s' | _ => false end.

(** [k in v] for a string [k]: a key of a dict, an element of a list, a
    substring of a string; the other values are not iterable. *)
Definition py_in (k : string) (v : json) : result bool :=
  match v with
  | JObj m => Ok (match dict_get m k with Some _ => true | None => false end)
  | JArr l => Ok (existsb (is_JStr k) l)
  | JStr s => Ok (contains_str k s)
  | _ => Raise TypeError
  end.

(** [v[k]] for a string [k]. *)
Definition py_getitem (v : json) (k : string) : result json :=
  match v with
  | JObj m => match dict_get m k with Some x => Ok x | None => Raise (KeyError k) end
  | _ => Raise TypeError
  end.

(** [v.get(k, dflt)]: only a dict has [get]. *)
Definition py_get (v : json) (k : string) (dflt : json) : result json :=
  match v with
  | JObj m => Ok (match dict_get m k with Some x => x | None => dflt end)
  | _ => Raise AttributeError
  end.

(** The integer a value stands for in arithmetic ([bool] is a subclass of
    [int]); on the other values [a + b - 60] raises [TypeError]. *)
Definition as_int (v : json) : option Z :=
  match v with
  | JInt n => Some n
  | JBool b => Some (if b then 1 else 0)
  | _ => None
  end.

(** [int(s)] for a string: surrounding whitespace, an optional sign,
    decimal digits with single underscores between them. *)
Definition digit_val (c : ascii) : option Z :=
  if ascii_in c 48 57 then Some (Z.of_N (N_of_ascii c) - 48) else None.

Fixpoint int_digits (acc : Z) (after_digit : bool) (s : string) : option Z :=
  match s with
  | EmptyString => if after_digit then Some acc else None
  | String c r =>
      match digit_val c with
      | Some d => int_digits (10 * acc + d) true r
      | None =>
          if (Ascii.eqb c "_" && after_digit)%bool
          then match r with
               | EmptyString => None
               | String c' _ =>
                   match digit_val c' with
                   | Some _ => int_digits acc false r
                   | None => None
                   end
               end
          else None
      end
  end.

Definition py_int (s : string) : result Z :=
  let body := strip s in
  let '(neg, ds) :=
    match body with
    | String "-" r => (true, r)
    | String "+" r => (false, r)
    | _ => (false, body)
    end in
  match int_digits 0 false ds with
  | Some n => Ok (if neg then - n else n)
  | None => Raise ValueError
  end.

(** ** The [json] module

    [json.dumps] and [json.load] on the fragment above, with the default
    [ensure_ascii] and [strict].  [json_encode false] is the default layout
    that [http_post] and [trakt_post_json] send, [json_encode true] the
    [indent=2] layout of [trakt_save_tokens].  A text with a fraction, an
    exponent or an escape above [\u00ff] denotes no value of the fragment
    and is refused. *)

Definition hex_digit (n : N) : ascii :=
  if (n <? 10)%N then ascii_of_N (48 + n) else ascii_of_N (87 + n).

Definition hex_val (c : ascii) : option N :=
  let n := N_of_ascii c in
  if ascii_in c 48 57 then Some (n - 48)%N
  else if ascii_in c 97 102 then Some (n - 87)%N
  else if ascii_in c 65 70 then Some (n - 55)%N
  else None.

Definition escape_char (c : ascii) (k : string) : string :=
  let n := N_of_ascii c in
  if (n =? 34)%N then String "\" (String "034" k)
  else if (n =? 92)%N then String "\" (String "\" k)
  else if (n =? 10)%N then String "\" (String "n" k)
  else if (n =? 13)%N then String "\" (String "r" k)
  else if (n =? 9)%N then String "\" (String "t" k)
  else if (n =? 12)%N then String "\" (String "f" k)
  else if (n =? 8)%N then String "\" (String "b" k)
  else if ascii_in c 32 126 then String c k
  else String "\" (String "u" (String "0" (String "0"
         (String (hex_digit (n / 16)) (String (hex_digit (n mod 16)) k))))).

Fixpoint escape (s : string) (k : string) : string :=
  match s with
  | EmptyString => k
  | String c r => escape_char c (escape r k)
  end.

(** The encoders take what follows the value as their last argument. *)
Definition quote (s : string) (k : string) : string :=
  String "034" (escape s (String "034" k)).

Definition newline : ascii := ascii_of_N 10.

Fixpoint spaces (n : nat) (k : string) : string :=
  match n with
  | O => k
  | S n' => String " " (spaces n' k)
  end.

(** What precedes an item, or the closing bracket, at nesting level [lvl]. *)
Definition pad (indent : bool) (lvl : nat) (k : string) : string :=
  if indent then String newline (spaces (2 * lvl) k) else k.

Definition item_sep (indent : bool) (lvl : nat) (k : string) : string :=
  if indent then String "," (pad indent lvl k) else String "," (String " " k).

Fixpoint json_encode (indent : bool) (lvl : nat) (v : json) (k : string)
  : string :=
  match v with
  | JNull => "null" ++ k
  | JBool true => "true" ++ k
  | JBool false => "false" ++ k
  | JInt n => str_Z n ++ k
  | JStr s => quote s k
  | JArr [] => "[]" ++ k
  | JArr (x :: l) =>
      String "["
        (pad indent (S lvl)
           (json_encode indent (S lvl) x
              ((fix items (l : list json) : string :=
                  match l with
                  | [] => pad indent lvl (String "]" k)
                  | y :: l' =>
                      item_sep indent (S lvl)
                        (json_encode indent (S lvl) y (items l'))
                  end) l)))
  | JObj [] => "{}" ++ k
  | JObj ((key, x) :: m) =>
      String "{"
        (pad indent (S lvl)
           (quote key
              (String ":" (String " "
                 (json_encode indent (S lvl) x
                    ((fix members (m : list (string * json)) : string :=
                        match m with
                        | [] => pad indent lvl (String "}" k)
                        | (key', y) :: m' =>
                            item_sep indent (S lvl)
                              (quote key'
                                 (String ":" (String " "
                                    (json_encode indent (S lvl) y
                                       (members m')))))
                        end) m))))))
  end.

(** [json.dumps(v)] and [json.dump(v, f, indent=2)]. *)
Definition json_dumps (v : json) : string :=
  json_encode false 0 v EmptyString.
Definition json_dump_indent2 (v : json) : string :=
  json_encode true 0 v EmptyString.

(** The decoder. *)

Definition is_ws (c : ascii) : bool :=
  let n := N_of_ascii c in
  ((n =? 32) || (n =? 9) || (n =? 10) || (n =? 13))%N%bool.

Fixpoint skip_ws (s : string) : string :=
  match s with
  | EmptyString => EmptyString
  | String c r => if is_ws c then skip_ws r else s
  end.

Definition unescape (c : ascii) : option ascii :=
  let n := N_of_ascii c in
  if (n =? 34)%N then Some c
  else if (n =? 92)%N then Some c
  else if (n =? 47)%N then Some c
  else if (n =? 98)%N then Some (ascii_of_N 8)
  else if (n =? 102)%N then Some (ascii_of_N 12)
  else if (n =? 110)%N then Some (ascii_of_N 10)
  else if (n =? 114)%N then Some (ascii_of_N 13)
  else if (n =? 116)%N then Some (ascii_of_N 9)
  else None.

Definition hex4 (a b c d : ascii) : option ascii :=
  match hex_val a, hex_val b, hex_val c, hex_val d with
  | Some x, Some y, Some z, Some t =>
      if ((x =? 0) && (y =? 0))%N%bool then Some (ascii_of_N (16 * z + t))
      else None
  | _, _, _, _ => None
  end.

(** The text after an opening quote, up to the closing one. *)
Fixpoint scan_string (s : string) : option (string * string) :=
  match s with
  | EmptyString => None
  | String c r =>
      if (N_of_ascii c =? 34)%N then Some (EmptyString, r)
      else if (N_of_ascii c =? 92)%N then
        match r with
        | String e r' =>
            if (N_of_ascii e =? 117)%N then
              match r' with
              | String a (String b (String x (String y r''))) =>
                  match hex4 a b x y, scan_string r'' with
                  | Some c', Some (t, r3) => Some (String c' t, r3)
                  | _, _ => None
                  end
              | _ => None
              end
            else
              match unescape e, scan_string r' with
              | Some c', Some (t, r3) => Some (String c' t, r3)
              | _, _ => None
              end
        | EmptyString => None
        end
      else if (N_of_ascii c <? 32)%N then None
      else
        match scan_string r with
        | Some (t, r') => Some (String c t, r')
        | None => None
        end
  end.

Definition is_digit (c : ascii) : bool := ascii_in c 48 57.

Fixpoint scan_digits (s : string) : string * string :=
  match s with
  | EmptyString => (EmptyString, EmptyString)
  | String c r =>
      if is_digit c
      then let '(ds, r') := scan_digits r in (String c ds, r')
      else (EmptyString, s)
  end.

Definition head_digit (s : string) : bool :=
  match s with String c _ => is_digit c | EmptyString => false end.

(** A fraction or an exponent after the integer part makes the number a
    float, which is outside the fragment. *)
Definition starts_float_tail (s : string) : bool :=
  match s with
  | String c r =>
      if (N_of_ascii c =? 46)%N then head_digit r
      else if ((N_of_ascii c =? 101) || (N_of_ascii c =? 69))%N%bool then
        match r with
        | String d r' =>
            if ((N_of_ascii d =? 43) || (N_of_ascii d =? 45))%N%bool
            then head_digit r'
            else is_digit d
        | EmptyString => false
        end
      else false
  | EmptyString => false
  end.

Definition scan_nat (s : string) : option (N * string) :=
  match s with
  | String c r =>
      if (N_of_ascii c =? 48)%N then
        if starts_float_tail r then None else Some (0%N, r)
      else
        let '(ds, r') := scan_digits s in
        if nonempty ds then
          match NilEmpty.uint_of_string ds with
          | Some d =>
              if starts_float_tail r' then None else Some (N.of_uint d, r')
          | None => None
          end
        else None
  | EmptyString => None
  end.

Definition scan_number (s : string) : option (Z * string) :=
  match strip_prefix "-" s with
  | Some r =>
      match scan_nat r with
      | Some (n, r') => Some (- Z.of_N n, r')
      | None => None
      end
  | None =>
      match scan_nat s with
      | Some (n, r') => Some (Z.of_N n, r')
      | None => None
      end
  end.

(** [dict(pairs)]: a repeated key keeps its first position and its last
    value. *)
Definition dict_of_pairs (ps : list (string * json)) : list (string * json) :=
  fold_left (fun d kv => dict_set d (fst kv) (snd kv)) ps [].

Definition with_value {A B} (f : A -> B) (r : option (A * string))
  : option (B * string) :=
  match r with
  | Some (a, rest) => Some (f a, rest)
  | None => None
  end.

Fixpoint parse_value (fuel : nat) (s : string) : option (json * string) :=
  match fuel with
  | O => None
  | S f =>
      match strip_prefix "null" s with
      | Some r => Some (JNull, r)
      | None =>
      match strip_prefix "true" s with
      | Some r => Some (JBool true, r)
      | None =>
      match strip_prefix "false" s with
      | Some r => Some (JBool false, r)
      | None =>
      match strip_prefix (String "034" EmptyString) s with
      | Some r => with_value JStr (scan_string r)
      | None =>
      match strip_prefix "[" s with
      | Some r =>
          match strip_prefix "]" (skip_ws r) with
          | Some r' => Some (JArr [], r')
          | None => with_value JArr (parse_elems f (skip_ws r))
          end
      | None =>
      match strip_prefix "{" s with
      | Some r =>
          match strip_prefix "}" (skip_ws r) with
          | Some r' => Some (JObj [], r')
          | None =>
              with_value (fun m => JObj (dict_of_pairs m))
                (parse_members f (skip_ws r))
          end
      | None => with_value JInt (scan_number s)
      end end end end end end
  end
with parse_elems (fuel : nat) (s : string) : option (list json * string) :=
  match fuel with
  | O => None
  | S f =>
      match parse_value f s with
      | Some (v, r) =>
          match strip_prefix "," (skip_ws r) with
          | Some r' => with_value (cons v) (parse_elems f (skip_ws r'))
          | None =>
              match strip_prefix "]" (skip_ws r) with
              | Some r' => Some ([v], r')
              | None => None
              end
          end
      | None => None
      end
  end
with parse_members (fuel : nat) (s : string)
  : option (list (string * json) * string) :=
  match fuel with
  | O => None
  | S f =>
      match strip_prefix (String "034" EmptyString) s with
      | Some r =>
          match scan_string r with
          | Some (k, r1) =>
              match strip_prefix ":" (skip_ws r1) with
              | Some r2 =>
                  match parse_value f (skip_ws r2) with
                  | Some (v, r3) =>
                      match strip_prefix "," (skip_ws r3) with
                      | Some r4 =>
                          with_value (cons (k, v))
                            (parse_members f (skip_ws r4))
                      | None =>
                          match strip_prefix "}" (skip_ws r3) with
                          | Some r4 => Some ([(k, v)], r4)
                          | None => None
                          end
                      end
                  | None => None
                  end
              | None => None
              end
          | None => None
          end
      | None => None
      end
  end.

Definition json_loads (s : string) : result json :=
  match parse_value (2 * String.length s + 2) (skip_ws s) with
  | Some (v, r) =>
      match skip_ws r with
      | EmptyString => Ok v
      | _ => Raise JSONDecodeError
      end
  | None => Raise JSONDecodeError
  end.

(** *** What the codec is measured against *)

(** What may follow a value: nothing, whitespace, a comma or a closing
    bracket. *)
Definition is_delim (c : ascii) : bool :=
  let n := N_of_ascii c in
  (is_ws c || (n =? 44) || (n =? 93) || (n =? 125))%N%bool.

Definition delimited (s : string) : Prop :=
  match s with
  | EmptyString => True
  | String c _ => is_delim c = true
  end.

(** The first character of an encoded value. *)
Definition value_head (c : ascii) : bool :=
  let n := N_of_ascii c in
  (is_digit c || (n =? 45) || (n =? 110) || (n =? 116) || (n =? 102)
   || (n =? 34) || (n =? 91) || (n =? 123))%N%bool.

Definition starts_value (s : string) : Prop :=
  match s with
  | EmptyString => False
  | String c _ => value_head c = true
  end.

(** The items of an array after the first, with the closing bracket. *)
Fixpoint encode_items (indent : bool) (lvl : nat) (l : list json) (k : string)
  : string :=
  match l with
  | [] => pad indent lvl (String "]" k)
  | y :: l' =>
      item_sep indent (S lvl)
        (json_encode indent (S lvl) y (encode_items indent lvl l' k))
  end.

Fixpoint encode_members (indent : bool) (lvl : nat)
    (m : list (string * json)) (k : string) : string :=
  match m with
  | [] => pad indent lvl (String "}" k)
  | (key, y) :: m' =>
      item_sep indent (S lvl)
        (quote key
           (String ":" (String " "
              (json_encode indent (S lvl) y (encode_members indent lvl m' k)))))
  end.

(** The size of a value bounds the fuel that decoding it takes. *)
Fixpoint json_size (v : json) : nat :=
  match v with
  | JArr l => S (list_sum (map (fun x => S (json_size x)) l))
  | JObj m => S (list_sum (map (fun kv => S (json_size (snd kv))) m))
  | _ => 1
  end.

#[local] Unset Elimination Schemes.
(** A value all of whose dicts have distinct keys, as every Python value
    has. *)
Inductive well_formed : json -> Prop :=
| wf_null : well_formed JNull
| wf_bool b : well_formed (JBool b)
| wf_int n : well_formed (JInt n)
| wf_str s : well_formed (JStr s)
| wf_arr l : Forall well_formed l -> well_formed (JArr l)
| wf_obj m :
    NoDup (map fst m) -> Forall (fun kv => well_formed (snd kv)) m ->
    well_formed (JObj m).
#[local] Set Elimination Schemes.

Definition items_size (l : list json) : nat :=
  list_sum (map (fun x => S (json_size x)) l).

Definition members_size (m : list (string * json)) : nat :=
  list_sum (map (fun kv => S (json_size (snd kv))) m).

Definition decodes (v : json) : Prop :=
  forall indent lvl fuel k,
    (json_size v <= fuel)%nat -> delimited k ->
    parse_value fuel (json_encode indent lvl v k) = Some (v, k).

Definition fits (v : json) : Prop :=
  forall indent lvl k,
    (json_size v + String.length k
     <= String.length (json_encode indent lvl v k))%nat.

(** Induction on a value together with its elements. *)
Section JsonInduction.

Variable P : json -> Prop.
Hypothesis P_null : P JNull.
Hypothesis P_bool : forall b, P (JBool b).
Hypothesis P_int : forall n, P (JInt n).
Hypothesis P_str : forall s, P (JStr s).
Hypothesis P_arr : forall l, Forall P l -> P (JArr l).
Hypothesis P_obj : forall m, Forall (fun kv => P (snd kv)) m -> P (JObj m).

Fixpoint json_induction (v : json) : P v :=
  match v with
  | JNull => P_null
  | JBool b => P_bool b
  | JInt n => P_int n
  | JStr s => P_str s
  | JArr l =>
      P_arr l
        ((fix all (l : list json) : Forall P l :=
            match l with
            | [] => Forall_nil P
            | x :: r => Forall_cons x (json_induction x) (all r)
            end) l)
  | JObj m =>
      P_obj m
        ((fix all (m : list (string * json))
            : Forall (fun kv => P (snd kv)) m :=
            match m with
            | [] => Forall_nil _
            | kv :: r =>
                Forall_cons (P := fun kv => P (snd kv)) kv
                  (json_induction (snd kv)) (all r)
            end) m)
  end.

End JsonInduction.

(** ** The world and the monad of effects *)

(** A header value: a literal, the bearer credential interpolated after
    ["Bearer "], or a module constant read from the environment, which is
    [None] when the variable is not set. *)
Inductive hval : Type :=
| HStr (s : string)
| HBearer (token : json)
| HEnv (v : option string).

Record request : Type := mkRequest {
  rq_method : string;
  rq_url : string;
  rq_data : option string;
  rq_headers : list (string * hval);
  rq_timeout : Z
}.

(** What the remote end answers to one [urlopen], once redirections are
    followed: a status line with a body, or nothing (DNS, refused, timeout). *)
Inductive reply : Type :=
| Reply (status : Z) (body : string)
| NoReply (reason : string).

Inductive level : Type := INFO | WARNING | ERROR.

Inductive arg : Type :=
| AStr (s : string)
| AJson (v : json)
| AExn (e : exn).

(** What a run leaves behind, besides the token file: the calls of
    [urlopen], the lines logged and printed (a format with its arguments),
    the prompts. *)
Inductive event : Type :=
| EvUrlopen (rq : request)
| EvLog (lvl : level) (fmt : string) (args : list arg)
| EvPrint (fmt : string) (args : list arg)
| EvInput (prompt : string).

(** What a run depends on and changes.  The token file is read and written
    without failure, and what the network answers is text. *)
Record world : Type := mkWorld {
  environ : list (string * string);
  argv : list string;
  token_file : option string;   (* tmp/trakt_tokens.json, when it exists *)
  clock : nat -> Q;             (* the successive readings of time.time() *)
  ticks : nat;
  stdin : list string;          (* the lines still to be read *)
  network : list reply;         (* the answers still to come *)
  trace : list event            (* latest first *)
}.

Definition emit (e : event) (w : world) : world :=
  mkWorld (environ w) (argv w) (token_file w) (clock w) (ticks w) (stdin w)
          (network w) (e :: trace w).

Definition set_token_file (f : option string) (w : world) : world :=
  mkWorld (environ w) (argv w) f (clock w) (ticks w) (stdin w)
          (network w) (trace w).

Definition set_ticks (n : nat) (w : world) : world :=
  mkWorld (environ w) (argv w) (token_file w) (clock w) n (stdin w)
          (network w) (trace w).

Definition set_stdin (l : list string) (w : world) : world :=
  mkWorld (environ w) (argv w) (token_file w) (clock w) (ticks w) l
          (network w) (trace w).

Definition set_network (l : list reply) (w : world) : world :=
  mkWorld (environ w) (argv w) (token_file w) (clock w) (ticks w) (stdin w)
          l (trace w).

Definition M (A : Type) : Type := world -> result A * world.

Definition ret {A} (a : A) : M A := fun w => (Ok a, w).

Definition raise {A} (e : exn) : M A := fun w => (Raise e, w).

Definition bind {A B} (m : M A) (k : A -> M B) : M B :=
  fun w =>
    match m w with
    | (Ok a, w') => k a w'
    | (Raise e, w') => (Raise e, w')
    end.

Definition lift {A} (r : result A) : M A := fun w => (r, w).

(** [try: m except ...: h e]: [h] tells which exceptions the clause takes. *)
Definition try_catch {A} (m : M A) (h : exn -> option (M A)) : M A :=
  fun w =>
    match m w with
    | (Ok a, w') => (Ok a, w')
    | (Raise e, w') =>
        match h e with
        | Some k => k w'
        | None => (Raise e, w')
        end
    end.

(** [except Exception as e]. *)
Definition try_except {A} (m : M A) (h : exn -> M A) : M A :=
  try_catch m (fun e => if is_Exception e then Some (h e) else None).

Declare Scope monad_scope.
Delimit Scope monad_scope with monad.
Notation "x <- m ;; k" := (bind m (fun x => k))
  (at level 61, m at next level, right associativity) : monad_scope.
Notation "' p <- m ;; k" := (bind m (fun x => let 'p := x in k))
  (at level 61, p pattern, m at next level, right associativity) : monad_scope.
Notation "m ;; k" := (bind m (fun _ => k))
  (at level 61, right associativity) : monad_scope.
Local Open Scope monad_scope.

Definition log (lvl : level) (fmt : string) (args : list arg) : M unit :=
  fun w => (Ok tt, emit (EvLog lvl fmt args) w).

Definition log_event (ev : event) : M unit := fun w => (Ok tt, emit ev w).

Definition print (fmt : string) (args : list arg) : M unit :=
  fun w => (Ok tt, emit (EvPrint fmt args) w).

Definition time_time : M Q :=
  fun w => (Ok (clock w (ticks w)), set_ticks (S (ticks w)) w).

(** [input(prompt)]: the next line without its newline, [EOFError] at the
    end of the input. *)
Definition input (prompt : string) : M string :=
  fun w =>
    let w1 := emit (EvInput prompt) w in
    match stdin w with
    | [] => (Raise EOFError, w1)
    | l :: ls => (Ok l, set_stdin ls w1)
    end.

Fixpoint env_get (env : list (string * string)) (k : string) : option string :=
  match env with
  | [] => None
  | (k', v) :: r => if String.eqb k k' then Some v else env_get r k
  end.

Definition getenv (k : string) : M (option string) :=
  fun w => (Ok (env_get (environ w) k), w).

Definition sys_argv : M (list string) := fun w => (Ok (argv w), w).

Definition header_unset (h : string * hval) : bool :=
  match snd h with HEnv None => true | _ => false end.

(** [urllib.request.urlopen]: a header whose value is [None] is refused
    with [TypeError] before anything is sent; a status outside 200..299
    raises [HTTPError], no answer raises [URLError]. *)
Definition urlopen (rq : request) : M (Z * string) :=
  fun w =>
    if existsb header_unset (rq_headers rq) then (Raise TypeError, w)
    else
      let w1 := emit (EvUrlopen rq) w in
      match network w with
      | [] => (Raise (URLError "no answer"), w1)
      | NoReply reason :: rs => (Raise (URLError reason), set_network rs w1)
      | Reply status body :: rs =>
          if (Z.leb 200 status && Z.ltb status 300)%bool
          then (Ok (status, body), set_network rs w1)
          else (Raise (HTTPError status body), set_network rs w1)
      end.

(** A loop body ends an iteration with [continue], or the function with
    [return]. *)
Inductive flow (A : Type) : Type :=
| Continue
| Return (a : A).
Arguments Continue {A}.
Arguments Return {A} a.

(** [for i in its: body]; [None] when the loop runs to its end. *)
Fixpoint for_in {A} (its : list Z) (body : Z -> M (flow A)) : M (option A) :=
  match its with
  | [] => ret None
  | i :: rest =>
      c <- body i ;;
      match c with
      | Return a => ret (Some a)
      | Continue => for_in rest body
      end
  end.

Definition range2 : list Z := [0; 1].

(** ** The program *)

Definition TRAKT_REDIRECT_URI : string := "urn:ietf:wg:oauth:2.0:oob".
Definition trakt_base_url : string := "https://api.trakt.tv".
Definition oauth_token_url : string := "https://api.trakt.tv/oauth/token".

Definition opt_str (o : option string) : json :=
  match o with Some s => JStr s | None => JNull end.

(** The functions that [starrtrakt.py] and [common.py] share word for word.
    [TRAKT_CLIENT_ID] and [TRAKT_CLIENT_SECRET] are the module constants,
    read from the environment when the module is loaded. *)
Section Trakt.

Variables TRAKT_CLIENT_ID TRAKT_CLIENT_SECRET : option string.

(** [http_post(url, data, headers, timeout=10)] *)
Definition http_post (url : string) (data : json)
    (headers : list (string * hval)) : M (string * Z) :=
  try_catch
    ('(status, body) <-
       urlopen (mkRequest "POST" url (Some (json_dumps data)) headers 10) ;;
     ret (body, status))
    (fun e =>
       match e with
       | HTTPError code body => Some (ret (body, code))
       | _ => None
       end).

(** [trakt_load_tokens()] *)
Definition trakt_load_tokens : M json :=
  fun w =>
    match token_file w with
    | Some text => (json_loads text, w)
    | None => (Ok JNull, w)
    end.

(** [trakt_save_tokens(tokens)] *)
Definition trakt_save_tokens (tokens : json) : M unit :=
  fun w => (Ok tt, set_token_file (Some (json_dump_indent2 tokens)) w).

(** [trakt_is_token_expired(tokens)] *)
Definition trakt_is_token_expired (tokens : json) : M bool :=
  if negb (truthy tokens) then ret true
  else
    has_created <- lift (py_in "created_at" tokens) ;;
    if negb has_created then ret true
    else
      has_expires <- lift (py_in "expires_in" tokens) ;;
      if negb has_expires then ret true
      else
        now <- time_time ;;
        created_at <- lift (py_getitem tokens "created_at") ;;
        expires_in <- lift (py_getitem tokens "expires_in") ;;
        match as_int created_at, as_int expires_in with
        | Some c, Some e => ret (negb (Qle_bool now (inject_Z (c + e - 60))))
        | _, _ => raise TypeError
        end.

(** The request that [trakt_post_json(url, data)] builds. *)
Definition post_json_request (url : string) (data : json) : request :=
  mkRequest "POST" url (Some (json_dumps data))
    [("Content-Type", HStr "application/json")] 15.

(** [trakt_post_json(url, data)] *)
Definition trakt_post_json (url : string) (data : json) : M json :=
  '(_, body) <- urlopen (post_json_request url data) ;;
  lift (json_loads body).

(** The body of the authorization-code grant. *)
Definition pin_payload (pin : string) : json :=
  JObj [("code", JStr pin);
        ("client_id", opt_str TRAKT_CLIENT_ID);
        ("client_secret", opt_str TRAKT_CLIENT_SECRET);
        ("redirect_uri", JStr TRAKT_REDIRECT_URI);
        ("grant_type", JStr "authorization_code")].

(** [trakt_get_new_tokens_with_pin(pin)] *)
Definition trakt_get_new_tokens_with_pin (pin : string) : M json :=
  trakt_post_json oauth_token_url (pin_payload pin).

(** The body of the refresh-token grant. *)
Definition refresh_payload (refresh_token : json) : json :=
  JObj [("refresh_token", refresh_token);
        ("client_id", opt_str TRAKT_CLIENT_ID);
        ("client_secret", opt_str TRAKT_CLIENT_SECRET);
        ("redirect_uri", JStr TRAKT_REDIRECT_URI);
        ("grant_type", JStr "refresh_token")].

(** [trakt_refresh_tokens(tokens)] *)
Definition trakt_refresh_tokens (tokens : json) : M json :=
  refresh_token <- lift (py_getitem tokens "refresh_token") ;;
  trakt_post_json oauth_token_url (refresh_payload refresh_token).

Definition no_pin_message : string :=
  "No PIN entered. Cannot authenticate Trakt.".

(** The tail of [trakt_get_valid_tokens()], from the first [print] on. *)
Definition pin_authorization : M json :=
  print "To authorize this script with Trakt, visit:" [] ;;
  print "https://trakt.tv/oauth/authorize?response_type=code&client_id={TRAKT_CLIENT_ID}&redirect_uri={TRAKT_REDIRECT_URI}"
        [AJson (opt_str TRAKT_CLIENT_ID); AStr TRAKT_REDIRECT_URI] ;;
  line <- input "Enter the PIN provided by Trakt: " ;;
  let pin := strip line in
  if negb (nonempty pin) then raise (Exception no_pin_message)
  else
    new_tokens <- trakt_get_new_tokens_with_pin pin ;;
    trakt_save_tokens new_tokens ;;
    log INFO "Successfully authorized Trakt with new PIN." [] ;;
    ret new_tokens.

(** The two lines that [trakt_get_valid_tokens] logs around a refresh. *)
Definition refreshed_event : event :=
  EvLog INFO "Successfully refreshed Trakt access token." [].

Definition refresh_failed_event (e : exn) : event :=
  EvLog WARNING "Trakt token refresh failed: {e}, falling back to PIN."
        [AExn e].

(** The [try] statement of [trakt_get_valid_tokens()]: [Some] when it
    returns, [None] when control leaves it by its [except] clause. *)
Definition refresh_attempt (tokens : json) : M (option json) :=
  try_except
    (new_tokens <- trakt_refresh_tokens tokens ;;
     trakt_save_tokens new_tokens ;;
     log_event refreshed_event ;;
     ret (Some new_tokens))
    (fun e =>
       log_event (refresh_failed_event e) ;;
       ret None).

(** [trakt_get_valid_tokens()] *)
Definition trakt_get_valid_tokens : M json :=
  tokens <- trakt_load_tokens ;;
  valid <- (if truthy tokens
            then expired <- trakt_is_token_expired tokens ;; ret (negb expired)
            else ret false) ;;
  if (valid : bool) then ret tokens
  else
    refreshable <- (if truthy tokens
                    then lift (py_in "refresh_token" tokens)
                    else ret false) ;;
    refreshed <- (if (refreshable : bool) then refresh_attempt tokens
                  else ret None) ;;
    match refreshed with
    | Some new_tokens => ret new_tokens
    | None => pin_authorization
    end.

(** [trakt_headers()], and [trakt_auth_headers()] which it wraps in
    [common.py]. *)
Definition trakt_headers : M (list (string * hval)) :=
  tokens <- trakt_get_valid_tokens ;;
  access_token <- lift (py_getitem tokens "access_token") ;;
  ret [("Authorization", HBearer access_token);
       ("Content-Type", HStr "application/json");
       ("trakt-api-version", HStr "2");
       ("trakt-api-key", HEnv TRAKT_CLIENT_ID)].

Definition watchlist_failure (status : Z) (body : string) : exn :=
  Exception ("Trakt watchlist operation failed: HTTP " ++ str_Z status
             ++ " " ++ body).

Definition retry_exhausted : exn :=
  Exception "Failed to perform watchlist operation after token refresh".

Definition watchlist_endpoint (action : string) : string :=
  if String.eqb action "remove" then "/sync/watchlist/remove"
  else "/sync/watchlist".

Definition watchlist_payload (media_type : string) (item : json) : json :=
  let key := if String.eqb media_type "series" then "shows" else "movies" in
  JObj [(key, JArr [item])].

(** The two lines that [_make_watchlist_request] logs. *)
Definition announce_event (action : string) (payload : json) : event :=
  EvLog INFO
    "{'Removing from' if action == 'remove' else 'Adding to'} watchlist: {payload}"
    [AStr (if String.eqb action "remove" then "Removing from" else "Adding to");
     AJson payload].

Definition retry_event : event :=
  EvLog INFO "Trakt token expired/unauthorized, refreshing and retrying..." [].

(** One iteration of the loop of [_make_watchlist_request]. *)
Definition watchlist_attempt (url : string) (payload : json) (attempt : Z)
  : M (flow json) :=
  headers <- trakt_headers ;;
  '(body, status) <- http_post url payload headers ;;
  if ((status =? 401)%Z && (attempt =? 0)%Z)%bool then
    log_event retry_event ;;
    _ <- trakt_get_valid_tokens ;;
    ret Continue
  else if (status >=? 400)%Z then raise (watchlist_failure status body)
  else if nonempty body then
    parsed <- lift (json_loads body) ;;
    ret (Return parsed)
  else ret (Return (JObj [])).

(** The [for attempt in range(2)] loop of [_make_watchlist_request]. *)
Definition watchlist_loop (url : string) (payload : json) : M (option json) :=
  for_in range2 (watchlist_attempt url payload).

(** [TraktWatchlistConnection._make_watchlist_request(action, media_type, item)] *)
Definition _make_watchlist_request (action media_type : string) (item : json)
  : M json :=
  let payload := watchlist_payload media_type item in
  let endpoint := watchlist_endpoint action in
  log_event (announce_event action payload) ;;
  outcome <- watchlist_loop (trakt_base_url ++ endpoint) payload ;;
  match outcome with
  | Some result => ret result
  | None => raise retry_exhausted
  end.

Definition add_to_watchlist (media_type : string) (item : json) : M json :=
  _make_watchlist_request "add" media_type item.

Definition remove_from_watchlist (media_type : string) (item : json) : M json :=
  _make_watchlist_request "remove" media_type item.

(** [format_item(event_data)] *)
Definition copy_if_set (event_data : json) (src dst : string)
    (d : list (string * json)) : M (list (string * json)) :=
  v <- lift (py_get event_data src JNull) ;;
  if truthy v then
    x <- lift (py_getitem event_data src) ;;
    ret (dict_set d dst x)
  else ret d.

Definition format_item (event_data : json) : M json :=
  ids <- copy_if_set event_data "imdbId" "imdb" [] ;;
  ids <- copy_if_set event_data "tmdbId" "tmdb" ids ;;
  ids <- copy_if_set event_data "tvdbId" "tvdb" ids ;;
  item <- copy_if_set event_data "title" "title" [("ids", JObj ids)] ;;
  item <- copy_if_set event_data "year" "year" item ;;
  ret (JObj item).

(** The attributes an event handler is built with. *)
Record handler : Type := mkHandler {
  media_type : string;
  env_prefix : string;
  add_events : list string;
  remove_events : list string
}.

Definition radarr_handler : handler :=
  mkHandler "movie" "radarr_movie" ["movieadded"] ["download"; "moviedelete"].

Definition sonarr_handler : handler :=
  mkHandler "series" "sonarr_series" ["seriesadd"] ["download"; "seriesdelete"].

Definition str_in (s : string) (l : list string) : bool :=
  existsb (String.eqb s) l.

(** The [try] statement that ends both [handle_event] methods. *)
Definition dispatch (h : handler) (event_type : string) (event_data : json)
  : M bool :=
  try_except
    (item <- format_item event_data ;;
     let event_type_lower := lower event_type in
     if str_in event_type_lower (add_events h) then
       result <- add_to_watchlist (media_type h) item ;;
       log INFO "Added {self.media_type} to watchlist: {result}"
           [AStr (media_type h); AJson result] ;;
       ret true
     else if str_in event_type_lower (remove_events h) then
       result <- remove_from_watchlist (media_type h) item ;;
       log INFO "Removed {self.media_type} from watchlist: {result}"
           [AStr (media_type h); AJson result] ;;
       ret true
     else
       log INFO "No action for event type: {event_type}" [AStr event_type] ;;
       ret false)
    (fun e =>
       log ERROR "Failed to handle event: {e}" [AExn e] ;;
       print "ERROR: Failed to handle event: {e}" [AExn e] ;;
       ret false).

(** [int(os.getenv(name, 0)) or None] *)
Definition env_int_or_none (name : string) : M json :=
  v <- getenv name ;;
  n <- match v with
       | Some s => lift (py_int s)
       | None => ret 0
       end ;;
  ret (if (n =? 0)%Z then JNull else JInt n).

Definition env_set (name : string) : M bool :=
  v <- getenv name ;;
  ret (match v with Some s => nonempty s | None => false end).

(** The loop of [build_event_data()] over the numeric identifiers. *)
Fixpoint add_numeric_ids (h : handler) (id_types : list string)
    (data : list (string * json)) : M (list (string * json)) :=
  match id_types with
  | [] => ret data
  | id_type :: rest =>
      let env_key := env_prefix h ++ "_" ++ id_type in
      present <- env_set env_key ;;
      data <- (if (present : bool) then
                 v <- env_int_or_none env_key ;;
                 ret (dict_set data id_type v)
               else ret data) ;;
      add_numeric_ids h rest data
  end.

(** [build_event_data()] *)
Definition build_event_data (h : handler) : M json :=
  let title_var := env_prefix h ++ "_title" in
  has_title <- env_set title_var ;;
  if negb has_title then ret JNull
  else
    title <- getenv title_var ;;
    year <- env_int_or_none (env_prefix h ++ "_year") ;;
    imdb <- getenv (env_prefix h ++ "_imdbid") ;;
    data <- add_numeric_ids h ["tmdbid"; "tvdbid"]
              [("title", opt_str title); ("year", year);
               ("imdbId", opt_str imdb)] ;;
    ret (JObj data).

Definition sys_exit {A} (code : Z) : M A := raise (SystemExit code).

(** [sys.argv[i]] when [len(sys.argv) > i]. *)
Definition arg_at (args : list string) (i : nat) : option string :=
  nth_error args i.

(** [os.getenv(name) or (sys.argv[1] if len(sys.argv) > 1 else "test")] *)
Definition event_type_of (env_value : option string) (args : list string)
  : string :=
  match env_value with
  | Some (String c r) => String c r
  | _ =>
      match arg_at args 1 with
      | Some a => a
      | None => "test"
      end
  end.

End Trakt.

(** The status with which the interpreter ends. *)
Definition exit_status {A} (r : result A) : Z :=
  match r with
  | Ok _ => 0
  | Raise (SystemExit code) => code
  | Raise _ => 1
  end.

Definition env_missing (v : option string) : bool :=
  match v with Some s => negb (nonempty s) | None => true end.

(** *** [starrtrakt.py] *)
Module Starrtrakt.

Section Connection.

Variables TRAKT_CLIENT_ID TRAKT_CLIENT_SECRET : option string.

Let trakt_headers := trakt_headers TRAKT_CLIENT_ID TRAKT_CLIENT_SECRET.

(** [TraktWatchlistConnection.test_connection()] *)
Definition test_connection : M bool :=
  try_except
    (log INFO "Testing Trakt authentication by calling /users/me" [] ;;
     headers <- trakt_headers ;;
     '(_, body) <-
       urlopen (mkRequest "GET" (trakt_base_url ++ "/users/me") None
                  headers 10) ;;
     data <- lift (json_loads body) ;;
     user <- lift (py_get data "username" (JStr "<unknown>")) ;;
     print "Trakt authentication successful. User:" [AJson user] ;;
     user <- lift (py_get data "username" (JStr "<unknown>")) ;;
     log INFO "Trakt authentication test passed. User: %s" [AJson user] ;;
     ret true)
    (fun e =>
       log ERROR "Trakt authentication test failed: {e}\n{traceback.format_exc()}"
           [AExn e] ;;
       print "Trakt authentication test failed: {e}" [AExn e] ;;
       ret false).

(** [EventHandler.__init__(service_type)] *)
Definition EventHandler (service_type : string) : handler :=
  if String.eqb service_type "radarr" then radarr_handler else sonarr_handler.

(** [EventHandler.handle_event(event_type, event_data)] *)
Definition handle_event (h : handler) (event_type : string)
    (event_data : json) : M bool :=
  if String.eqb (lower event_type) "test" then test_connection
  else if negb (truthy event_data) then
    log WARNING "No valid event data found, skipping." [] ;;
    ret false
  else dispatch TRAKT_CLIENT_ID TRAKT_CLIENT_SECRET h event_type event_data.

(** [main()] *)
Definition main : M unit :=
  try_except
    (radarr <- env_set "radarr_eventtype" ;;
     let service_type := if (radarr : bool) then "radarr" else "sonarr" in
     let h := EventHandler service_type in
     env_event <- getenv (service_type ++ "_eventtype") ;;
     args <- sys_argv ;;
     let event_type := event_type_of env_event args in
     event_data <-
       match arg_at args 2 with
       | Some text =>
           try_catch (lift (json_loads text))
             (fun e =>
                match e with
                | JSONDecodeError =>
                    Some (print "ERROR: Invalid JSON data provided: {e}"
                                [AExn e] ;;
                          sys_exit 1)
                | _ => None
                end)
       | None =>
           if String.eqb (lower event_type) "test" then ret (JObj [])
           else build_event_data h
       end ;;
     success <- handle_event h event_type event_data ;;
     sys_exit (if (success : bool) then 0 else 1))
    (fun e =>
       print "FATAL ERROR: {e}\n{tb}" [AExn e] ;;
       log ERROR "FATAL ERROR: {e}\n{tb}" [AExn e] ;;
       sys_exit 1).

End Connection.

(** The module from its first statement: the credentials are read and
    checked before [main()] is reached. *)
Definition script : M unit :=
  client_id <- getenv "TRAKT_CLIENT_ID" ;;
  client_secret <- getenv "TRAKT_CLIENT_SECRET" ;;
  if (env_missing client_id || env_missing client_secret)%bool then
    print "ERROR: TRAKT_CLIENT_ID and TRAKT_CLIENT_SECRET must be provided as environment variables."
          [] ;;
    sys_exit 1
  else main client_id client_secret.

End Starrtrakt.

(** *** [common.py] *)
Module Common.

Section Connection.

Variables TRAKT_CLIENT_ID TRAKT_CLIENT_SECRET : option string.

Let trakt_headers := trakt_headers TRAKT_CLIENT_ID TRAKT_CLIENT_SECRET.

Definition http_failure (status : Z) (body : string) : exn :=
  Exception ("HTTP " ++ str_Z status ++ ": " ++ body).

(** [TraktWatchlistConnection.test_connection()] *)
Definition test_connection : M bool :=
  try_except
    (log INFO "Testing Trakt authentication by calling /users/me" [] ;;
     headers <- trakt_headers ;;
     '(body, status) <-
       http_post (trakt_base_url ++ "/users/me") JNull headers ;;
     if (status >=? 400)%Z then raise (http_failure status body)
     else
       data <- lift (json_loads body) ;;
       user <- lift (py_get data "username" (JStr "<unknown>")) ;;
       print "Trakt authentication successful. User:" [AJson user] ;;
       user <- lift (py_get data "username" (JStr "<unknown>")) ;;
       log INFO "Trakt authentication test passed. User: %s" [AJson user] ;;
       ret true)
    (fun e =>
       log ERROR "Trakt authentication test failed: {e}" [AExn e] ;;
       print "Trakt authentication test failed: {e}" [AExn e] ;;
       ret false).

(** [StarrEventHandler.handle_event(event_type, event_data)] *)
Definition handle_event (h : handler) (event_type : string)
    (event_data : json) : M bool :=
  if negb (truthy event_data) then
    log WARNING "No valid event data found, skipping." [] ;;
    ret false
  else if String.eqb (lower event_type) "test" then test_connection
  else dispatch TRAKT_CLIENT_ID TRAKT_CLIENT_SECRET h event_type event_data.

End Connection.

(** [SonarrEventHandler()] and [RadarrEventHandler()] *)
Definition SonarrEventHandler : handler := sonarr_handler.
Definition RadarrEventHandler : handler := radarr_handler.

End Common.

(** *** [radarr_trakt.py] *)
Module RadarrTrakt.

(** [main()], with the module constants of [common.py] as read when it was
    imported. *)
Definition main (TRAKT_CLIENT_ID TRAKT_CLIENT_SECRET : option string)
  : M unit :=
  try_except
    (let h := Common.RadarrEventHandler in
     env_event <- getenv "radarr_eventtype" ;;
     args <- sys_argv ;;
     let event_type := event_type_of env_event args in
     event_data <-
       match arg_at args 2 with
       | Some text => lift (json_loads text)
       | None => build_event_data h
       end ;;
     success <- Common.handle_event TRAKT_CLIENT_ID TRAKT_CLIENT_SECRET
                  h event_type event_data ;;
     sys_exit (if (success : bool) then 0 else 1))
    (fun e =>
       print "FATAL ERROR: {e}" [AExn e] ;;
       sys_exit 1).

(** The script from its first statement: importing [common] reads the
    credentials, nothing checks them. *)
Definition script : M unit :=
  client_id <- getenv "TRAKT_CLIENT_ID" ;;
  client_secret <- getenv "TRAKT_CLIENT_SECRET" ;;
  main client_id client_secret.

End RadarrTrakt.

(** ** Observations on a run *)

(** The reading that the next [time.time()] returns. *)
Definition now (w : world) : Q := clock w (ticks w).

Definition is_request_to (url : string) (ev : event) : bool :=
  match ev with
  | EvUrlopen rq => String.eqb (rq_url rq) url
  | _ => false
  end.

(** How many times [urlopen] was called on [url] so far. *)
Definition requests_to (url : string) (w : world) : nat :=
  List.length (filter (is_request_to url) (trace w)).

Definition is_urlopen (ev : event) : bool :=
  match ev with EvUrlopen _ => true | _ => false end.

(** How many times [urlopen] was called at all. *)
Definition network_calls (w : world) : nat :=
  List.length (filter is_urlopen (trace w)).

(** The requests sent so far, latest first. *)
Fixpoint requests_of (tr : list event) : list request :=
  match tr with
  | [] => []
  | EvUrlopen rq :: r => rq :: requests_of r
  | _ :: r => requests_of r
  end.

(** The integer stored under [k] in a dict. *)
Definition int_field (m : list (string * json)) (k : string) : option Z :=
  match dict_get m k with
  | Some v => as_int v
  | None => None
  end.

Definition is_refresh_exchange (ev : event) : bool :=
  match ev with
  | EvUrlopen rq =>
      match rq_data rq with
      | Some text => starts_with
            (String "{" (String "034" ("refresh_token" ++ String "034" ": ")))
            text
      | None => false
      end
  | _ => false
  end.

(** How many refresh-token grants were sent so far. *)
Definition refresh_exchanges (w : world) : nat :=
  List.length (filter is_refresh_exchange (trace w)).

(** A computation raises only exceptions in [E], and relates the world it
    leaves to the one it found by [R]. *)
Definition preserves {A} (R : world -> world -> Prop) (E : exn -> Prop)
    (m : M A) : Prop :=
  forall w, R w (snd (m w)) /\ forall e, fst (m w) = Raise e -> E e.

(** What [except Exception] takes, the error after the loop apart. *)
Definition ordinary (e : exn) : Prop :=
  is_Exception e = true /\ e <> retry_exhausted.

(** No event selected by [f] was added. *)
(** No event selected by [f] was added between [w] and [w']. *)
Definition quiet (f : event -> bool) (w w' : world) : Prop :=
  List.length (filter f (trace w')) = List.length (filter f (trace w)).

(** No request to [url] is selected by [f]. *)
Definition unselected (f : event -> bool) (url : string) : Prop :=
  forall rq, rq_url rq = url -> f (EvUrlopen rq) = false.

(** The authorization-code grant sends nothing that [f] selects. *)
(** The authorization-code grant sends nothing that [f] selects. *)
Definition pin_unselected (f : event -> bool) (cid csec : option string)
  : Prop :=
  forall pin,
    f (EvUrlopen (post_json_request oauth_token_url (pin_payload cid csec pin)))
    = false.

(** The selection of no event at all. *)
Definition no_event (_ : event) : bool := false.

(** ** Sample records and worlds *)

Definition token_record (access refresh : string) (created_at expires_in : Z)
  : json :=
  JObj [("access_token", JStr access); ("refresh_token", JStr refresh);
        ("created_at", JInt created_at); ("expires_in", JInt expires_in)].

(** A world whose clock stands at [t], with no environment. *)
Definition world_at (t : Z) (file : option string) (lines : list string)
    (answers : list reply) : world :=
  mkWorld [] ["starrtrakt.py"] file (fun _ => inject_Z t) 0 lines answers [].

(** A record created at 1000 that lives 7776000 seconds, saved. *)
Definition fresh_file : option string :=
  Some (json_dump_indent2 (token_record "at" "rt" 1000 7776000)).

(** A record created at 1000 that lived 100 seconds, saved. *)
Definition stale_file : option string :=
  Some (json_dump_indent2 (token_record "at" "rt" 1000 100)).

(** A Radarr hook for an added film, with a client id and no client
    secret in the environment. *)
Definition hook_without_secret : world :=
  mkWorld [("TRAKT_CLIENT_ID", "id"); ("radarr_eventtype", "MovieAdded");
           ("radarr_movie_title", "Foo"); ("radarr_movie_year", "2020");
           ("radarr_movie_imdbid", "tt1")]
          ["radarr_trakt.py"] fresh_file (fun _ => inject_Z 2000) 0 []
          [Reply 201 (json_dumps (JObj [("added", JObj [("movies", JInt 1)])]))] [].

(** ** What the further properties are stated with *)

(** The value under [k] when the dict has one that is true. *)
Definition truthy_field (m : list (string * json)) (k : string) : option json :=
  match dict_get m k with
  | Some v => if truthy v then Some v else None
  | None => None
  end.

(** What [except Exception] takes. *)
Definition catchable (e : exn) : Prop := is_Exception e = true.

(** The URL that [_make_watchlist_request(action, ...)] posts to. *)
Definition watchlist_url (action : string) : string :=
  trakt_base_url ++ watchlist_endpoint action.

(** A Radarr hook whose film has a TMDb identifier. *)
Definition hook_with_tmdb : world :=
  mkWorld [("TRAKT_CLIENT_ID", "id"); ("TRAKT_CLIENT_SECRET", "secret");
           ("radarr_eventtype", "MovieAdded"); ("radarr_movie_title", "Foo");
           ("radarr_movie_tmdbid", "55")]
          ["radarr_trakt.py"] fresh_file (fun _ => inject_Z 2000) 0 []
          [Reply 201 "{}"] [].

(** An exit with status 0 or 1. *)
Definition exits (r : result unit) : Prop :=
  r = Raise (SystemExit 0) \/ r = Raise (SystemExit 1).

(** [starrtrakt.py] run by hand: both credentials, no event, no argument. *)
Definition plain_run (answers : list reply) : world :=
  mkWorld [("TRAKT_CLIENT_ID", "id"); ("TRAKT_CLIENT_SECRET", "secret")]
          ["starrtrakt.py"] fresh_file (fun _ => inject_Z 2000) 0 []
          answers [].

(** The first run: no token file yet, the clock at 2000. *)
Definition first_run (lines : list string) (answers : list reply) : world :=
  world_at 2000 None lines answers.

(** The headers that [trakt_headers] builds around an access token. *)
Definition bearer_headers (cid : option string) (access_token : json)
  : list (string * hval) :=
  [("Authorization", HBearer access_token);
   ("Content-Type", HStr "application/json");
   ("trakt-api-version", HStr "2");
   ("trakt-api-key", HEnv cid)].

(** ** Properties *)

(** *** The helpers on small inputs *)

Example lower_mixed : lower "MovieAdded" = "movieadded".
Proof. reflexivity. Qed.

Example strip_blank : strip "  " = EmptyString /\ strip " 12 34  " = "12 34".
Proof. split; reflexivity. Qed.

Example py_int_samples :
  py_int " 2_020 " = Ok 2020 /\ py_int "-7" = Ok (-7)
  /\ py_int "20__20" = Raise ValueError /\ py_int "" = Raise ValueError.
Proof. repeat split. Qed.

Example membership_samples :
  py_in "created_at" (token_record "a" "r" 1 2) = Ok true
  /\ py_in "created_at" (JArr [JStr "created_at"]) = Ok true
  /\ py_in "created_at" (JStr "no created_at here") = Ok true
  /\ py_in "created_at" (JInt 5) = Raise TypeError.
Proof. repeat split. Qed.

Example json_dumps_samples :
  json_dumps (JArr [JInt 1; JNull; JBool false; JArr []; JInt (-20)])
  = "[1, null, false, [], -20]"
  /\ json_dumps JNull = "null"
  /\ json_dumps (JStr (String (ascii_of_N 233) "t" ++ String newline "\"))
     = String "034" ("\u00e9t\n\\" ++ String "034" EmptyString).
Proof. repeat split. Qed.

Example json_loads_samples :
  json_loads (json_dump_indent2 (token_record "at" "rt" 1000 100))
  = Ok (token_record "at" "rt" 1000 100)
  /\ json_loads " [1, [], {}, null, true] "
     = Ok (JArr [JInt 1; JArr []; JObj []; JNull; JBool true])
  /\ json_loads "[1, 02]" = Raise JSONDecodeError
  /\ json_loads "[1,]" = Raise JSONDecodeError
  /\ json_loads "{1: 2}" = Raise JSONDecodeError.
Proof. repeat split. Qed.

(** *** The monad *)

Lemma bind_ok {A B} (m : M A) (k : A -> M B) w a w' :
  m w = (Ok a, w') -> bind m k w = k a w'.
Proof. intros H. unfold bind. now rewrite H. Qed.

Lemma bind_raise {A B} (m : M A) (k : A -> M B) w e w' :
  m w = (Raise e, w') -> bind m k w = (Raise e, w').
Proof. intros H. unfold bind. now rewrite H. Qed.

Lemma try_except_ok {A} (m : M A) h w a w' :
  m w = (Ok a, w') -> try_except m h w = (Ok a, w').
Proof. intros H. unfold try_except, try_catch. now rewrite H. Qed.

Lemma try_except_caught {A} (m : M A) h w e w' :
  m w = (Raise e, w') -> is_Exception e = true ->
  try_except m h w = h e w'.
Proof. intros H He. unfold try_except, try_catch. now rewrite H, He. Qed.

Section Preservation.

Variable R : world -> world -> Prop.
Variable E : exn -> Prop.
Hypothesis R_refl : forall w, R w w.
Hypothesis R_trans : forall a b c, R a b -> R b c -> R a c.

Lemma preserves_ret {A} (a : A) : preserves R E (ret a).
Proof. intros w. split; [apply R_refl | discriminate]. Qed.

Lemma preserves_raise {A} e : E e -> preserves R E (@raise A e).
Proof.
  intros He w. split; [apply R_refl | ].
  intros e' H. cbn in H. now inversion H; subst.
Qed.

Lemma preserves_lift {A} (r : result A) :
  (forall e, r = Raise e -> E e) -> preserves R E (lift r).
Proof. intros H w. split; [apply R_refl | exact H]. Qed.

Lemma preserves_bind {A B} (m : M A) (k : A -> M B) :
  preserves R E m -> (forall a, preserves R E (k a)) ->
  preserves R E (bind m k).
Proof.
  intros Hm Hk w. unfold bind.
  destruct (Hm w) as [HR HE]. destruct (m w) as [[a | e] w']; cbn in *.
  - destruct (Hk a w') as [HR' HE']. split; eauto.
  - split; [exact HR | ]. intros e' H. inversion H; subst. now apply HE.
Qed.

Lemma preserves_try_catch {A} (m : M A) (h : exn -> option (M A)) E' :
  preserves R E' m ->
  (forall e, E' e -> match h e with
                     | Some k => preserves R E k
                     | None => E e
                     end) ->
  preserves R E (try_catch m h).
Proof.
  intros Hm Hh w. unfold try_catch.
  destruct (Hm w) as [HR HE]. destruct (m w) as [[a | e] w']; cbn in *.
  - split; [exact HR | discriminate].
  - specialize (Hh e (HE e eq_refl)). destruct (h e) as [k | ].
    + destruct (Hh w') as [HR' HE']. split; eauto.
    + split; [exact HR | ]. intros e' H. now inversion H; subst.
Qed.

Lemma preserves_for_in {A} (its : list Z) (body : Z -> M (flow A)) :
  (forall i, preserves R E (body i)) -> preserves R E (for_in its body).
Proof.
  intros Hb. induction its as [ | i its IH]; cbn [for_in].
  - apply preserves_ret.
  - apply preserves_bind; [apply Hb | ].
    intros [ | a]; [exact IH | apply preserves_ret].
Qed.

End Preservation.

Lemma preserves_weaken {A} (R : world -> world -> Prop) (E E' : exn -> Prop)
    (m : M A) :
  (forall e, E e -> E' e) -> preserves R E m -> preserves R E' m.
Proof. intros H Hm w. destruct (Hm w). split; auto. Qed.

Lemma preserves_world {A} R E (m : M A) w r w' :
  preserves R E m -> m w = (r, w') -> R w w'.
Proof. intros Hm H. destruct (Hm w) as [HR _]. now rewrite H in HR. Qed.

Lemma preserves_exn {A} R E (m : M A) w e w' :
  preserves R E m -> m w = (Raise e, w') -> E e.
Proof. intros Hm H. destruct (Hm w) as [_ HE]. apply HE. now rewrite H. Qed.

(** *** Events that a computation does not produce *)

Section Quiet.

Variable f : event -> bool.

Lemma quiet_refl w : quiet f w w.
Proof. reflexivity. Qed.

Lemma quiet_trans a b c : quiet f a b -> quiet f b c -> quiet f a c.
Proof. unfold quiet. congruence. Qed.

Lemma quiet_emit ev w : f ev = false -> quiet f w (emit ev w).
Proof. intros H. unfold quiet. cbn. now rewrite H. Qed.

Lemma quiet_same_trace w w' : trace w' = trace w -> quiet f w w'.
Proof. unfold quiet. now intros ->. Qed.

Variable E : exn -> Prop.
Hypothesis E_ordinary : forall e, ordinary e -> E e.

Lemma ordinary_E e : is_Exception e = true -> e <> retry_exhausted -> E e.
Proof. intros H1 H2. apply E_ordinary. now split. Qed.

Lemma q_ret {A} (a : A) : preserves (quiet f) E (ret a).
Proof. apply preserves_ret, quiet_refl. Qed.

Lemma q_bind {A B} (m : M A) (k : A -> M B) :
  preserves (quiet f) E m -> (forall a, preserves (quiet f) E (k a)) ->
  preserves (quiet f) E (bind m k).
Proof. apply preserves_bind, quiet_trans. Qed.

Lemma q_raise {A} e : ordinary e -> preserves (quiet f) E (@raise A e).
Proof. intros H. apply preserves_raise; [apply quiet_refl | auto]. Qed.

Lemma q_try_except {A} (m : M A) (h : exn -> M A) :
  preserves (quiet f) ordinary m -> (forall e, preserves (quiet f) E (h e)) ->
  preserves (quiet f) E (try_except m h).
Proof.
  intros Hm Hh. unfold try_except.
  apply preserves_try_catch with (E' := ordinary);
    [apply quiet_trans | exact Hm | ].
  intros e [He _]. rewrite He. apply Hh.
Qed.

Lemma q_for_in {A} (its : list Z) (body : Z -> M (flow A)) :
  (forall i, preserves (quiet f) E (body i)) -> preserves (quiet f) E (for_in its body).
Proof. apply preserves_for_in; [apply quiet_refl | apply quiet_trans]. Qed.

Lemma q_log lvl fmt args :
  f (EvLog lvl fmt args) = false -> preserves (quiet f) E (log lvl fmt args).
Proof. intros H w. split; [now apply quiet_emit | discriminate]. Qed.

Lemma q_log_event ev :
  f ev = false -> preserves (quiet f) E (log_event ev).
Proof. intros H w. split; [now apply quiet_emit | discriminate]. Qed.

Lemma q_print fmt args :
  f (EvPrint fmt args) = false -> preserves (quiet f) E (print fmt args).
Proof. intros H w. split; [now apply quiet_emit | discriminate]. Qed.

Lemma q_input prompt :
  f (EvInput prompt) = false -> preserves (quiet f) E (input prompt).
Proof.
  intros H w. unfold input. destruct (stdin w); cbn.
  - split; [now apply quiet_emit | ].
    intros e He. inversion He; subst. now apply ordinary_E.
  - split; [ | discriminate]. unfold quiet. cbn. now rewrite H.
Qed.

Lemma q_time_time : preserves (quiet f) E time_time.
Proof. intros w. split; [reflexivity | discriminate]. Qed.

Lemma q_getenv k : preserves (quiet f) E (getenv k).
Proof. intros w. split; [reflexivity | discriminate]. Qed.

Lemma q_sys_argv : preserves (quiet f) E sys_argv.
Proof. intros w. split; [reflexivity | discriminate]. Qed.

Lemma q_urlopen rq :
  f (EvUrlopen rq) = false -> preserves (quiet f) E (urlopen rq).
Proof.
  intros H w. unfold urlopen.
  destruct (existsb header_unset (rq_headers rq)).
  { split; [reflexivity | ].
    intros e He. inversion He; subst. now apply ordinary_E. }
  assert (Hq : forall l, quiet f w (set_network l (emit (EvUrlopen rq) w)))
    by (intros l; unfold quiet; cbn; now rewrite H).
  destruct (network w) as [ | [status body | reason] rs].
  - split; [now apply quiet_emit | ].
    intros e He. inversion He; subst. now apply ordinary_E.
  - destruct (Z.leb 200 status && Z.ltb status 300)%bool; cbn.
    + split; [apply Hq | discriminate].
    + split; [apply Hq | ].
      intros e He. inversion He; subst. now apply ordinary_E.
  - split; [apply Hq | ].
    intros e He. inversion He; subst. now apply ordinary_E.
Qed.

Lemma q_json_loads s : preserves (quiet f) E (lift (json_loads s)).
Proof.
  apply preserves_lift; [apply quiet_refl | ].
  intros e He. unfold json_loads in He.
  destruct (parse_value _ _) as [[v r] | ];
    [destruct (skip_ws r) | ]; inversion He; subst; now apply ordinary_E.
Qed.

Lemma q_py_in k v : preserves (quiet f) E (lift (py_in k v)).
Proof.
  apply preserves_lift; [apply quiet_refl | ].
  intros e He. destruct v; inversion He; subst; now apply ordinary_E.
Qed.

Lemma q_py_getitem v k : preserves (quiet f) E (lift (py_getitem v k)).
Proof.
  apply preserves_lift; [apply quiet_refl | ].
  intros e He. destruct v; cbn in He; try destruct (dict_get m k);
    inversion He; subst; now apply ordinary_E.
Qed.

Lemma q_py_get v k d : preserves (quiet f) E (lift (py_get v k d)).
Proof.
  apply preserves_lift; [apply quiet_refl | ].
  intros e He. destruct v; inversion He; subst; now apply ordinary_E.
Qed.

Lemma q_py_int s : preserves (quiet f) E (lift (py_int s)).
Proof.
  apply preserves_lift; [apply quiet_refl | ].
  intros e He. unfold py_int in He.
  destruct (match strip s with
            | String "-" r => (true, r)
            | String "+" r => (false, r)
            | _ => (false, strip s)
            end) as [neg ds].
  destruct (int_digits 0 false ds); inversion He; subst; now apply ordinary_E.
Qed.

Lemma q_load_tokens : preserves (quiet f) E trakt_load_tokens.
Proof.
  intros w. unfold trakt_load_tokens. destruct (token_file w) as [text | ].
  - apply (q_json_loads text w).
  - split; [reflexivity | discriminate].
Qed.

Lemma q_save_tokens tokens : preserves (quiet f) E (trakt_save_tokens tokens).
Proof. intros w. split; [reflexivity | discriminate]. Qed.

End Quiet.

Ltac quiet_side :=
  match goal with
  | |- forall e, ordinary e -> _ => solve [auto]
  | |- ordinary _ => split; [reflexivity | cbn; discriminate]
  | |- _ = false => solve [auto]
  end.

Ltac quiet_step :=
  match goal with
  | |- preserves _ _ (ret _) => apply q_ret
  | |- preserves _ _ (bind _ _) => apply q_bind; intros
  | |- preserves _ _ (raise _) => apply q_raise
  | |- preserves _ _ (log _ _ _) => apply q_log
  | |- preserves _ _ (log_event _) => apply q_log_event
  | |- preserves _ _ (print _ _) => apply q_print
  | |- preserves _ _ (input _) => apply q_input
  | |- preserves _ _ time_time => apply q_time_time
  | |- preserves _ _ (getenv _) => apply q_getenv
  | |- preserves _ _ sys_argv => apply q_sys_argv
  | |- preserves _ _ (urlopen _) => apply q_urlopen
  | |- preserves _ _ (lift (json_loads _)) => apply q_json_loads
  | |- preserves _ _ (lift (py_in _ _)) => apply q_py_in
  | |- preserves _ _ (lift (py_getitem _ _)) => apply q_py_getitem
  | |- preserves _ _ (lift (py_get _ _ _)) => apply q_py_get
  | |- preserves _ _ (lift (py_int _)) => apply q_py_int
  | |- preserves _ _ trakt_load_tokens => apply q_load_tokens
  | |- preserves _ _ (trakt_save_tokens _) => apply q_save_tokens
  | |- preserves _ _ (try_except _ _) => apply q_try_except; intros
  | |- preserves _ _ (for_in _ _) => apply q_for_in; intros
  | |- preserves _ _ (let '(_, _) := ?x in _) => destruct x
  | |- preserves _ _ (if ?b then _ else _) => destruct b
  | |- preserves _ _ (match ?x with _ => _ end) => destruct x
  | |- _ => quiet_side
  end.

Ltac quiet_auto := repeat quiet_step.

Section QuietProgram.

Variable f : event -> bool.
Variables cid csec : option string.
Hypothesis f_requests : forall ev, is_urlopen ev = false -> f ev = false.

Lemma log_unselected lvl fmt args : f (EvLog lvl fmt args) = false.
Proof. now apply f_requests. Qed.

Lemma print_unselected fmt args : f (EvPrint fmt args) = false.
Proof. now apply f_requests. Qed.

Lemma input_unselected prompt : f (EvInput prompt) = false.
Proof. now apply f_requests. Qed.

Lemma q_http_post url data headers :
  unselected f url -> preserves (quiet f) ordinary (http_post url data headers).
Proof.
  intros Hu. unfold http_post.
  apply preserves_try_catch with (E' := ordinary); [apply quiet_trans | | ].
  - quiet_auto.
  - intros e He. destruct e; auto. quiet_auto.
Qed.

Lemma q_post_json url data :
  f (EvUrlopen (post_json_request url data)) = false ->
  preserves (quiet f) ordinary (trakt_post_json url data).
Proof. intros Hu. unfold trakt_post_json. quiet_auto. Qed.

Lemma q_pin_authorization_gen :
  pin_unselected f cid csec -> preserves (quiet f) ordinary (pin_authorization cid csec).
Proof.
  intros Hp. unfold pin_authorization, trakt_get_new_tokens_with_pin.
  quiet_auto. apply q_post_json, Hp.
Qed.

Hypothesis f_oauth : unselected f oauth_token_url.

Lemma q_is_token_expired tokens :
  preserves (quiet f) ordinary (trakt_is_token_expired tokens).
Proof. unfold trakt_is_token_expired. quiet_auto. Qed.

Lemma q_refresh_tokens tokens :
  preserves (quiet f) ordinary (trakt_refresh_tokens cid csec tokens).
Proof.
  unfold trakt_refresh_tokens. quiet_auto. now apply q_post_json, f_oauth.
Qed.

Lemma q_pin_authorization :
  preserves (quiet f) ordinary (pin_authorization cid csec).
Proof. apply q_pin_authorization_gen. intros pin. now apply f_oauth. Qed.

Lemma q_refresh_attempt tokens :
  preserves (quiet f) ordinary (refresh_attempt cid csec tokens).
Proof.
  unfold refresh_attempt. quiet_auto. apply q_refresh_tokens.
Qed.

Lemma q_get_valid_tokens :
  preserves (quiet f) ordinary (trakt_get_valid_tokens cid csec).
Proof.
  unfold trakt_get_valid_tokens. quiet_auto;
    first [ apply q_is_token_expired | apply q_refresh_attempt
          | apply q_pin_authorization ]; auto.
Qed.

Lemma q_trakt_headers : preserves (quiet f) ordinary (trakt_headers cid csec).
Proof. unfold trakt_headers. quiet_auto. apply q_get_valid_tokens. Qed.

Lemma q_watchlist_attempt url payload attempt :
  unselected f url ->
  preserves (quiet f) ordinary (watchlist_attempt cid csec url payload attempt).
Proof.
  intros Hu. unfold watchlist_attempt. quiet_auto;
    first [ apply q_trakt_headers | apply q_http_post
          | apply q_get_valid_tokens ]; auto.
Qed.

Lemma q_watchlist_loop url payload :
  unselected f url ->
  preserves (quiet f) ordinary (watchlist_loop cid csec url payload).
Proof.
  intros Hu. unfold watchlist_loop. apply q_for_in.
  intros i. now apply q_watchlist_attempt.
Qed.

End QuietProgram.

(** *** Token expiry *)

Lemma load_tokens_world w : snd (trakt_load_tokens w) = w.
Proof. unfold trakt_load_tokens. now destruct (token_file w). Qed.

(** Reading the clock is all that [trakt_is_token_expired] does to the
    world. *)
Lemma is_token_expired_world tokens w :
  snd (trakt_is_token_expired tokens w) = w
  \/ snd (trakt_is_token_expired tokens w) = set_ticks (S (ticks w)) w.
Proof.
  unfold trakt_is_token_expired, bind, lift, time_time, ret, raise.
  destruct (truthy tokens); cbn; [ | now left].
  destruct (py_in "created_at" tokens) as [[ | ] | ]; cbn; try now left.
  destruct (py_in "expires_in" tokens) as [[ | ] | ]; cbn; try now left.
  right.
  destruct (py_getitem tokens "created_at") as [c | ]; cbn; [ | reflexivity].
  destruct (py_getitem tokens "expires_in") as [e | ]; cbn; [ | reflexivity].
  now destruct (as_int c), (as_int e).
Qed.

Lemma is_token_expired_frame tokens w :
  let w' := snd (trakt_is_token_expired tokens w) in
  trace w' = trace w /\ network w' = network w
  /\ token_file w' = token_file w /\ stdin w' = stdin w.
Proof.
  cbv zeta. destruct (is_token_expired_world tokens w) as [-> | ->]; now cbn.
Qed.

Lemma is_token_expired_dict m w c e :
  int_field m "created_at" = Some c -> int_field m "expires_in" = Some e ->
  trakt_is_token_expired (JObj m) w
  = (Ok (negb (Qle_bool (now w) (inject_Z (c + e - 60)))),
     set_ticks (S (ticks w)) w).
Proof.
  unfold int_field. intros Hc He.
  destruct (dict_get m "created_at") as [vc | ] eqn:Dc; [ | discriminate].
  destruct (dict_get m "expires_in") as [ve | ] eqn:De; [ | discriminate].
  unfold trakt_is_token_expired, bind, lift, time_time, ret.
  destruct m as [ | p m']; [discriminate | ].
  cbn [truthy negb py_in py_getitem]. rewrite Dc, De. cbn. now rewrite Hc, He.
Qed.

(** A verdict is reached on a value without both fields, or on a dict
    whose two fields are integers. *)
Lemma is_token_expired_cases tokens w b :
  fst (trakt_is_token_expired tokens w) = Ok b ->
  (b = true /\ (truthy tokens = false \/ py_in "created_at" tokens = Ok false
                \/ py_in "expires_in" tokens = Ok false))
  \/ exists m c e,
       tokens = JObj m /\ int_field m "created_at" = Some c
       /\ int_field m "expires_in" = Some e
       /\ b = negb (Qle_bool (now w) (inject_Z (c + e - 60))).
Proof.
  unfold trakt_is_token_expired, bind, lift, time_time, ret, raise.
  destruct (truthy tokens) eqn:Ht; cbn.
  2:{ intros H. inversion H. left. auto. }
  destruct (py_in "created_at" tokens) as [[ | ] | ] eqn:Hc; cbn;
    try discriminate.
  2:{ intros H. inversion H. left. auto. }
  destruct (py_in "expires_in" tokens) as [[ | ] | ] eqn:He; cbn;
    try discriminate.
  2:{ intros H. inversion H. left. auto. }
  destruct tokens as [ | | | | | m]; cbn; try discriminate.
  cbn in Hc, He.
  destruct (dict_get m "created_at") as [vc | ] eqn:Dc; [ | discriminate].
  destruct (dict_get m "expires_in") as [ve | ] eqn:De; [ | discriminate].
  cbn. destruct (as_int vc) as [c | ] eqn:Ac; [ | discriminate].
  destruct (as_int ve) as [e | ] eqn:Ae; [ | discriminate].
  cbn. intros H. inversion H. right. exists m, c, e.
  unfold int_field. rewrite Dc, De. auto.
Qed.

Lemma negb_Qle_false a b : negb (Qle_bool a b) = false <-> (a <= b)%Q.
Proof. rewrite negb_false_iff. apply Qle_bool_iff. Qed.

Lemma negb_Qle_true a b : negb (Qle_bool a b) = true <-> (b < a)%Q.
Proof.
  rewrite negb_true_iff. split.
  - intros H. apply Qnot_le_lt. intros Hle.
    apply Qle_bool_iff in Hle. congruence.
  - intros H. destruct (Qle_bool a b) eqn:Hb; [ | reflexivity].
    apply Qle_bool_iff in Hb. exfalso. exact (Qlt_not_le _ _ H Hb).
Qed.



(** *** The fast path *)

Lemma run_eq {A} (m : M A) w r : fst (m w) = r -> m w = (r, snd (m w)).
Proof. intros <-. apply surjective_pairing. Qed.

Lemma load_tokens_eq w tokens :
  fst (trakt_load_tokens w) = Ok tokens -> trakt_load_tokens w = (Ok tokens, w).
Proof.
  intros H. rewrite (run_eq _ _ _ H). now rewrite load_tokens_world.
Qed.

(** C5.  When the token file holds a record on which
    [trakt_is_token_expired] answers [False], [trakt_get_valid_tokens]
    returns that record; the trace, hence the number of network calls, the
    pending answers and the token file are as before. *)
Theorem fast_path_no_network (cid csec : option string) (w : world)
    (tokens : json) :
  fst (trakt_load_tokens w) = Ok tokens ->
  truthy tokens = true ->
  fst (trakt_is_token_expired tokens w) = Ok false ->
  exists w',
    trakt_get_valid_tokens cid csec w = (Ok tokens, w')
    /\ trace w' = trace w /\ network_calls w' = network_calls w
    /\ network w' = network w /\ token_file w' = token_file w.
Proof.
  intros Hload Hpresent Hvalid.
  exists (snd (trakt_is_token_expired tokens w)).
  destruct (is_token_expired_frame tokens w) as (Ht & Hn & Hf & _).
  repeat split; auto.
  - unfold trakt_get_valid_tokens.
    rewrite (bind_ok _ _ _ _ _ (load_tokens_eq _ _ Hload)).
    rewrite Hpresent. unfold bind at 1. unfold bind at 1.
    now rewrite (run_eq _ _ _ Hvalid).
  - unfold network_calls. now rewrite Ht.
Qed.

Lemma fast_path_no_network_witness :
  exists w',
    trakt_get_valid_tokens (Some "id") (Some "secret")
      (world_at 2000 fresh_file [] [])
    = (Ok (token_record "at" "rt" 1000 7776000), w')
    /\ trace w' = [] /\ network_calls w' = 0%nat
    /\ network w' = [] /\ token_file w' = fresh_file.
Proof.
  apply (fast_path_no_network (Some "id") (Some "secret")
           (world_at 2000 fresh_file [] [])
           (token_record "at" "rt" 1000 7776000));
    reflexivity.
Defined.

(** *** The retry loop *)

Lemma watchlist_failure_ordinary status body :
  ordinary (watchlist_failure status body).
Proof. split; [reflexivity | ]. unfold watchlist_failure. cbn. discriminate. Qed.

(** Whatever the loop raises is an [Exception] other than the one raised
    after the loop. *)
Lemma watchlist_loop_ordinary cid csec url payload :
  preserves (quiet no_event) ordinary (watchlist_loop cid csec url payload).
Proof. apply q_watchlist_loop; intros ?; reflexivity. Qed.

Lemma later_attempt_ends cid csec url payload attempt w :
  attempt <> 0 ->
  fst (watchlist_attempt cid csec url payload attempt w) <> Ok Continue.
Proof.
  intros Hi. unfold watchlist_attempt, bind.
  destruct (trakt_headers cid csec w) as [[hs | e] w1]; [ | discriminate].
  destruct (http_post url payload hs w1) as [[[body status] | e] w2];
    [ | discriminate].
  apply Z.eqb_neq in Hi. rewrite Hi, andb_false_r.
  destruct (status >=? 400); [discriminate | ].
  destruct (nonempty body); [ | discriminate].
  unfold lift. destruct (json_loads body); discriminate.
Qed.

Lemma first_attempt_continues cid csec url payload w :
  fst (watchlist_attempt cid csec url payload 0 w) = Ok Continue ->
  exists hs w1 body w2,
    trakt_headers cid csec w = (Ok hs, w1)
    /\ http_post url payload hs w1 = (Ok (body, 401), w2).
Proof.
  unfold watchlist_attempt, bind.
  destruct (trakt_headers cid csec w) as [[hs | e] w1] eqn:Hh;
    [ | discriminate].
  destruct (http_post url payload hs w1) as [[[body status] | e] w2] eqn:Hp;
    [ | discriminate].
  destruct (Z.eqb_spec status 401) as [-> | Hs].
  - intros _. now exists hs, w1, body, w2.
  - cbn [andb]. destruct (status >=? 400); [discriminate | ].
    destruct (nonempty body); [ | discriminate].
    unfold lift. destruct (json_loads body); discriminate.
Qed.

(** C10.  The loop of [_make_watchlist_request] never runs to its end: its
    first iteration continues only after a 401, its second iteration
    returns or raises, so the loop always returns or raises and the [raise]
    placed after it is never executed. *)
Theorem final_raise_unreachable (cid csec : option string)
    (action media_type : string) (item : json) (w : world) :
  let url := trakt_base_url ++ watchlist_endpoint action in
  let payload := watchlist_payload media_type item in
  (fst (watchlist_attempt cid csec url payload 0 w) = Ok Continue ->
   exists hs w1 body w2,
     trakt_headers cid csec w = (Ok hs, w1)
     /\ http_post url payload hs w1 = (Ok (body, 401), w2))
  /\ fst (watchlist_attempt cid csec url payload 1 w) <> Ok Continue
  /\ fst (watchlist_loop cid csec url payload w) <> Ok None
  /\ fst (_make_watchlist_request cid csec action media_type item w)
     <> Raise retry_exhausted.
Proof.
  cbv zeta.
  assert (Hloop : forall u p w0, fst (watchlist_loop cid csec u p w0) <> Ok None).
  { intros u p w0. unfold watchlist_loop, range2. cbn [for_in]. unfold bind.
    destruct (watchlist_attempt cid csec u p 0 w0) as [[[ | v] | e] w1];
      try discriminate.
    pose proof (later_attempt_ends cid csec u p 1 w1) as H1.
    destruct (watchlist_attempt cid csec u p 1 w1) as [[[ | v] | e] w2];
      try discriminate.
    exfalso. apply H1; [discriminate | reflexivity]. }
  split; [apply first_attempt_continues | ].
  split; [apply later_attempt_ends; discriminate | ].
  split; [apply Hloop | ].
  unfold _make_watchlist_request, bind, log_event.
  set (w0 := emit _ w).
  pose proof (Hloop (trakt_base_url ++ watchlist_endpoint action)
                (watchlist_payload media_type item) w0) as Hn.
  destruct (watchlist_loop_ordinary cid csec
              (trakt_base_url ++ watchlist_endpoint action)
              (watchlist_payload media_type item) w0) as [_ He].
  destruct (watchlist_loop cid csec _ _ w0) as [[[v | ] | e] w1]; cbn in *.
  - discriminate.
  - now contradiction Hn.
  - intros H. inversion H; subst. destruct (He _ eq_refl) as [_ Hne].
    now apply Hne.
Qed.

Lemma final_raise_unreachable_witness :
  exists hs w1 body w2,
    trakt_headers (Some "id") (Some "secret")
      (world_at 2000 fresh_file [] [Reply 401 "denied"]) = (Ok hs, w1)
    /\ http_post (trakt_base_url ++ watchlist_endpoint "add")
         (watchlist_payload "movie" (JObj [])) hs w1 = (Ok (body, 401), w2).
Proof.
  apply (final_raise_unreachable (Some "id") (Some "secret") "add" "movie"
           (JObj []) (world_at 2000 fresh_file [] [Reply 401 "denied"])).
  reflexivity.
Defined.

(** *** Counting the attempts *)


Section Attempts.

Variables cid csec : option string.
Variable url : string.
Hypothesis url_not_oauth : url <> oauth_token_url.








End Attempts.



(** *** The re-authentication after a 401 *)

(** C2 (failing input).  The token file holds a record that its
    timestamps say is valid, and the service answers 401 twice.  The call of
    [trakt_get_valid_tokens] after the first 401 takes the fast path: no
    token exchange is sent, the token file is as before, and the second
    request carries the same credential as the first. *)
Theorem reauthentication_takes_fast_path :
  let w := world_at 2000 fresh_file [] [Reply 401 "denied"; Reply 401 "again"] in
  let run := add_to_watchlist (Some "id") (Some "secret") "movie" (JObj []) w in
  let headers := [("Authorization", HBearer (JStr "at"));
                  ("Content-Type", HStr "application/json");
                  ("trakt-api-version", HStr "2");
                  ("trakt-api-key", HEnv (Some "id"))] in
  fst run = Raise (watchlist_failure 401 "again")
  /\ requests_to oauth_token_url (snd run) = 0%nat
  /\ token_file (snd run) = fresh_file
  /\ map rq_headers (requests_of (trace (snd run))) = [headers; headers]
  /\ fst (trakt_get_valid_tokens (Some "id") (Some "secret")
            (world_at 2000 fresh_file [] []))
     = Ok (token_record "at" "rt" 1000 7776000).
Proof. repeat split. Qed.

(** *** The test event *)

Lemma starrtrakt_test_event cid csec h event_type event_data :
  lower event_type = "test" ->
  Starrtrakt.handle_event cid csec h event_type event_data
  = Starrtrakt.test_connection cid csec.
Proof. intros H. unfold Starrtrakt.handle_event. now rewrite H. Qed.

(** C3 (failing input).  In [common.py] an event of type ["test"] whose
    data is empty or [None] is dropped with a warning, and
    [test_connection] is not called; in [starrtrakt.py] the same event is
    handed to [test_connection]. *)
Theorem common_test_event_needs_data (cid csec : option string) (h : handler)
    (w : world) :
  let dropped :=
    (Ok false, emit (EvLog WARNING "No valid event data found, skipping." []) w) in
  Common.handle_event cid csec h "test" (JObj []) w = dropped
  /\ Common.handle_event cid csec h "Test" JNull w = dropped
  /\ Starrtrakt.handle_event cid csec h "test" (JObj []) w
     = Starrtrakt.test_connection cid csec w
  /\ Starrtrakt.handle_event cid csec h "Test" JNull w
     = Starrtrakt.test_connection cid csec w.
Proof. repeat split. Qed.

(** *** The credentials *)

Lemma starrtrakt_requires_credentials w :
  (env_missing (env_get (environ w) "TRAKT_CLIENT_ID")
   || env_missing (env_get (environ w) "TRAKT_CLIENT_SECRET"))%bool = true ->
  Starrtrakt.script w
  = (Raise (SystemExit 1),
     emit (EvPrint "ERROR: TRAKT_CLIENT_ID and TRAKT_CLIENT_SECRET must be provided as environment variables." []) w).
Proof.
  intros H. unfold Starrtrakt.script, bind, getenv. now rewrite H.
Qed.

(** C9 (failing input).  Without [TRAKT_CLIENT_SECRET] the script
    [radarr_trakt.py] handles the event, posts the film to the watchlist
    and exits with status 0, where [starrtrakt.py] exits with status 1
    before anything else. *)
Theorem radarr_script_runs_without_secret :
  env_get (environ hook_without_secret) "TRAKT_CLIENT_SECRET" = None
  /\ exit_status (fst (RadarrTrakt.script hook_without_secret)) = 0
  /\ requests_to (trakt_base_url ++ "/sync/watchlist")
       (snd (RadarrTrakt.script hook_without_secret)) = 1%nat
  /\ exit_status (fst (Starrtrakt.script hook_without_secret)) = 1
  /\ network_calls (snd (Starrtrakt.script hook_without_secret)) = 0%nat.
Proof. repeat split. Qed.

(** *** The connection test *)

Lemma no_event_requests ev : is_urlopen ev = false -> no_event ev = false.
Proof. reflexivity. Qed.

Lemma no_event_unselected url : unselected no_event url.
Proof. intros rq _. reflexivity. Qed.

Lemma trakt_headers_ordinary cid csec :
  preserves (quiet no_event) ordinary (trakt_headers cid csec).
Proof.
  apply q_trakt_headers; [apply no_event_requests | apply no_event_unselected].
Qed.

(** A [try] whose clause takes every [Exception] and returns, around a
    body that raises nothing else, returns. *)
Lemma try_except_returns {A} (m : M A) (h : exn -> M A) R w :
  preserves R ordinary m ->
  (forall e w', exists a, fst (h e w') = Ok a) ->
  exists a, fst (try_except m h w) = Ok a.
Proof.
  intros Hm Hh. unfold try_except, try_catch.
  destruct (Hm w) as [_ He]. destruct (m w) as [[a | e] w'].
  - now exists a.
  - destruct (He e eq_refl) as [Hexc _]. rewrite Hexc. apply Hh.
Qed.

Lemma starrtrakt_test_connection_returns cid csec w :
  exists b, fst (Starrtrakt.test_connection cid csec w) = Ok b.
Proof.
  unfold Starrtrakt.test_connection.
  apply try_except_returns with (R := quiet no_event).
  - quiet_auto. apply trakt_headers_ordinary.
  - intros e w'. now exists false.
Qed.

Lemma common_test_connection_returns cid csec w :
  exists b, fst (Common.test_connection cid csec w) = Ok b.
Proof.
  unfold Common.test_connection.
  apply try_except_returns with (R := quiet no_event).
  - quiet_auto.
    + apply trakt_headers_ordinary.
    + apply q_http_post, no_event_unselected.
  - intros e w'. now exists false.
Qed.

(** C8 (failing input).  [test_connection] returns a boolean in every
    world, in both files.  But with a valid record in the token file,
    [test_connection] of [common.py] sends a POST of [/users/me] with the
    body [null], where [starrtrakt.py] sends a GET without body; and it
    returns [True] on an answer 307 whose body is a JSON object. *)
Theorem common_test_connection_posts :
  let headers := [("Authorization", HBearer (JStr "at"));
                  ("Content-Type", HStr "application/json");
                  ("trakt-api-version", HStr "2");
                  ("trakt-api-key", HEnv (Some "id"))] in
  let url := trakt_base_url ++ "/users/me" in
  let w := world_at 2000 fresh_file []
             [Reply 200 (json_dumps (JObj [("username", JStr "bob")]))] in
  let moved := world_at 2000 fresh_file [] [Reply 307 "{}"] in
  (forall cid csec w',
     (exists b, fst (Common.test_connection cid csec w') = Ok b)
     /\ (exists b, fst (Starrtrakt.test_connection cid csec w') = Ok b))
  /\ requests_of
       (trace (snd (Common.test_connection (Some "id") (Some "secret") w)))
     = [mkRequest "POST" url (Some "null") headers 10]
  /\ requests_of
       (trace (snd (Starrtrakt.test_connection (Some "id") (Some "secret") w)))
     = [mkRequest "GET" url None headers 10]
  /\ fst (Common.test_connection (Some "id") (Some "secret") moved) = Ok true
  /\ fst (Starrtrakt.test_connection (Some "id") (Some "secret") moved)
     = Ok false.
Proof.
  cbv zeta. split; [ | repeat split].
  intros cid csec w'. split.
  - apply common_test_connection_returns.
  - apply starrtrakt_test_connection_returns.
Qed.

(** *** The codec *)

(** Strings. *)

Lemma scan_escape_char c k :
  scan_string (escape_char c k)
  = match scan_string k with
    | Some (t, r) => Some (String c t, r)
    | None => None
    end.
Proof. destruct c as [[] [] [] [] [] [] [] []]; reflexivity. Qed.

Lemma scan_escape s rest :
  scan_string (escape s (String "034" rest)) = Some (s, rest).
Proof.
  induction s as [ | c s IH]; [reflexivity | ].
  cbn [escape]. now rewrite scan_escape_char, IH.
Qed.

(** Numbers. *)

Lemma delim_not_digit c : is_delim c = true -> is_digit c = false.
Proof. destruct c as [[] [] [] [] [] [] [] []]; cbn; congruence. Qed.

Lemma delimited_head_digit s : delimited s -> head_digit s = false.
Proof. destruct s as [ | c r]; [reflexivity | apply delim_not_digit]. Qed.

Lemma delimited_no_float s : delimited s -> starts_float_tail s = false.
Proof.
  destruct s as [ | c r]; [reflexivity | ]. cbn [delimited starts_float_tail].
  destruct c as [[] [] [] [] [] [] [] []]; cbn; congruence.
Qed.

Lemma scan_digits_uint d rest :
  head_digit rest = false ->
  scan_digits (NilEmpty.string_of_uint d ++ rest)
  = (NilEmpty.string_of_uint d, rest).
Proof.
  intros H. induction d; cbn [NilEmpty.string_of_uint append scan_digits];
    try (rewrite IHd; reflexivity).
  destruct rest as [ | c r]; [reflexivity | ]. cbn in *. now rewrite H.
Qed.

Lemma nzhead_no_zero u d : Decimal.nzhead u <> Decimal.D0 d.
Proof. induction u; cbn; try discriminate. exact IHu. Qed.

Lemma pos_to_uint_no_zero p d : Pos.to_uint p <> Decimal.D0 d.
Proof.
  intros H.
  pose proof (DecimalPos.Unsigned.to_of (Pos.to_uint p)) as Hn.
  rewrite DecimalPos.Unsigned.of_to in Hn. cbn in Hn. rewrite H in Hn.
  unfold Decimal.unorm in Hn.
  destruct (Decimal.nzhead (Decimal.D0 d)) eqn:Hz;
    try (now apply (nzhead_no_zero (Decimal.D0 d) d); rewrite Hz, Hn).
  inversion Hn; subst.
  apply (DecimalPos.Unsigned.to_uint_nonzero p). exact H.
Qed.

Lemma scan_nat_pos p rest :
  delimited rest ->
  scan_nat (NilEmpty.string_of_uint (Pos.to_uint p) ++ rest)
  = Some (Npos p, rest).
Proof.
  intros Hr. unfold scan_nat.
  rewrite (scan_digits_uint _ _ (delimited_head_digit _ Hr)).
  rewrite NilEmpty.usu, (delimited_no_float _ Hr).
  unfold N.of_uint. rewrite DecimalPos.Unsigned.of_to.
  pose proof (pos_to_uint_no_zero p) as Hz.
  pose proof (DecimalPos.Unsigned.to_uint_nonnil p) as Hn.
  destruct (Pos.to_uint p); try reflexivity.
  - now contradiction Hn.
  - now contradiction (Hz u).
Qed.

Lemma scan_number_str_Z n rest :
  delimited rest -> scan_number (str_Z n ++ rest) = Some (n, rest).
Proof.
  intros Hr. destruct n as [ | p | p]; cbn [str_Z].
  - cbn. now rewrite (delimited_no_float _ Hr).
  - unfold scan_number.
    assert (Hm : strip_prefix "-" (NilEmpty.string_of_uint (Pos.to_uint p) ++ rest)
                 = None).
    { pose proof (DecimalPos.Unsigned.to_uint_nonnil p) as Hn.
      destruct (Pos.to_uint p); try reflexivity. now contradiction Hn. }
    rewrite Hm. now rewrite scan_nat_pos.
  - unfold scan_number. cbn [append strip_prefix]. cbn [Ascii.eqb Bool.eqb].
    now rewrite scan_nat_pos.
Qed.

(** Layout. *)

Lemma skip_ws_spaces n s : skip_ws (spaces n s) = skip_ws s.
Proof. induction n; [reflexivity | exact IHn]. Qed.

Lemma skip_ws_pad indent lvl s : skip_ws (pad indent lvl s) = skip_ws s.
Proof. destruct indent; [apply skip_ws_spaces | reflexivity]. Qed.

Lemma uint_head d k :
  d <> Decimal.Nil -> starts_value (NilEmpty.string_of_uint d ++ k).
Proof. destruct d; try reflexivity. now intros H. Qed.

Lemma encode_starts_value indent lvl v k :
  starts_value (json_encode indent lvl v k).
Proof.
  destruct v as [ | [ | ] | [ | p | p] | s | [ | x l] | [ | [key x] m]];
    try reflexivity.
  apply uint_head, DecimalPos.Unsigned.to_uint_nonnil.
Qed.

Lemma skip_ws_value s : starts_value s -> skip_ws s = s.
Proof.
  destruct s as [ | c r]; [reflexivity | ]. cbn.
  destruct c as [[] [] [] [] [] [] [] []]; cbn; congruence.
Qed.

Lemma value_not_closing s :
  starts_value s ->
  strip_prefix "]" s = None /\ strip_prefix "}" s = None
  /\ strip_prefix "," s = None.
Proof.
  destruct s as [ | c r]; [now intros [] | ]. cbn.
  destruct c as [[] [] [] [] [] [] [] []]; cbn; intros H;
    try discriminate; repeat split.
Qed.

Lemma item_sep_delimited indent lvl k : delimited (item_sep indent lvl k).
Proof. now destruct indent. Qed.

Lemma closing_delimited indent lvl c k :
  is_delim c = true -> delimited (pad indent lvl (String c k)).
Proof. intros H. destruct indent; [reflexivity | exact H]. Qed.

(** After the separator and the whitespace, the next item. *)
Lemma next_item indent lvl s :
  starts_value s ->
  exists r, strip_prefix "," (skip_ws (item_sep indent lvl s)) = Some r
            /\ skip_ws r = s.
Proof.
  intros Hs. destruct indent.
  - exists (pad true lvl s). split; [reflexivity | ].
    now rewrite skip_ws_pad, skip_ws_value.
  - exists (String " " s). split; [reflexivity | ].
    cbn. now apply skip_ws_value.
Qed.

Lemma encode_array indent lvl x l k :
  json_encode indent lvl (JArr (x :: l)) k
  = String "[" (pad indent (S lvl)
      (json_encode indent (S lvl) x (encode_items indent lvl l k))).
Proof.
  cbn [json_encode]. do 3 f_equal.
  induction l as [ | y l IH]; [reflexivity | ]. cbn [encode_items].
  now rewrite <- IH.
Qed.

Lemma encode_object indent lvl key x m k :
  json_encode indent lvl (JObj ((key, x) :: m)) k
  = String "{" (pad indent (S lvl)
      (quote key (String ":" (String " "
         (json_encode indent (S lvl) x (encode_members indent lvl m k)))))).
Proof.
  cbn [json_encode]. do 6 f_equal.
  induction m as [ | [key' y] m IH]; [reflexivity | ]. cbn [encode_members].
  now rewrite <- IH.
Qed.

Lemma encode_items_delimited indent lvl l k :
  delimited (encode_items indent lvl l k).
Proof.
  destruct l; [now apply closing_delimited | apply item_sep_delimited].
Qed.

Lemma encode_members_delimited indent lvl m k :
  delimited (encode_members indent lvl m k).
Proof.
  destruct m as [ | [key y] m];
    [now apply closing_delimited | apply item_sep_delimited].
Qed.

(** Dicts. *)

Lemma dict_set_fresh m k v :
  ~ In k (map fst m) -> dict_set m k v = (m ++ [(k, v)])%list.
Proof.
  induction m as [ | [k' v'] m IH]; [reflexivity | ].
  cbn. intros H. destruct (String.eqb_spec k k') as [-> | _].
  - exfalso. apply H. now left.
  - rewrite IH; [reflexivity | ]. intros Hin. apply H. now right.
Qed.

Lemma dict_of_pairs_from acc ps :
  NoDup (map fst (acc ++ ps)%list) ->
  fold_left (fun d kv => dict_set d (fst kv) (snd kv)) ps acc
  = (acc ++ ps)%list.
Proof.
  revert acc. induction ps as [ | [k v] ps IH]; intros acc H.
  - now rewrite List.app_nil_r.
  - cbn [fold_left fst snd]. rewrite dict_set_fresh.
    + rewrite IH; rewrite <- List.app_assoc; [reflexivity | exact H].
    + rewrite map_app in H. apply NoDup_remove_2 in H.
      intros Hin. apply H. apply in_or_app. now left.
Qed.

Lemma dict_of_pairs_unique m : NoDup (map fst m) -> dict_of_pairs m = m.
Proof. intros H. now apply (dict_of_pairs_from [] m). Qed.

(** The decoder, one step at a time. *)

Lemma parse_value_number f s :
  match s with
  | String c _ => (is_digit c || (N_of_ascii c =? 45)%N)%bool = true
  | EmptyString => False
  end ->
  parse_value (S f) s = with_value JInt (scan_number s).
Proof.
  destruct s as [ | c r]; [now intros [] | ].
  destruct c as [[] [] [] [] [] [] [] []]; cbn; intros H;
    try discriminate; reflexivity.
Qed.

Lemma str_Z_head n k :
  match str_Z n ++ k with
  | String c _ => (is_digit c || (N_of_ascii c =? 45)%N)%bool = true
  | EmptyString => False
  end.
Proof.
  destruct n as [ | p | p]; try reflexivity. cbn [str_Z].
  pose proof (DecimalPos.Unsigned.to_uint_nonnil p) as Hn.
  destruct (Pos.to_uint p); try reflexivity. now contradiction Hn.
Qed.

Lemma parse_value_bracket f s :
  parse_value (S f) (String "[" s)
  = match strip_prefix "]" (skip_ws s) with
    | Some r' => Some (JArr [], r')
    | None => with_value JArr (parse_elems f (skip_ws s))
    end.
Proof. reflexivity. Qed.

Lemma parse_value_brace f s :
  parse_value (S f) (String "{" s)
  = match strip_prefix "}" (skip_ws s) with
    | Some r' => Some (JObj [], r')
    | None =>
        with_value (fun m => JObj (dict_of_pairs m))
          (parse_members f (skip_ws s))
    end.
Proof. reflexivity. Qed.

Lemma parse_value_quote f s :
  parse_value (S f) (String "034" s) = with_value JStr (scan_string s).
Proof. reflexivity. Qed.

Lemma parse_elems_S f s :
  parse_elems (S f) s
  = match parse_value f s with
    | Some (v, r) =>
        match strip_prefix "," (skip_ws r) with
        | Some r' => with_value (cons v) (parse_elems f (skip_ws r'))
        | None =>
            match strip_prefix "]" (skip_ws r) with
            | Some r' => Some ([v], r')
            | None => None
            end
        end
    | None => None
    end.
Proof. reflexivity. Qed.

Lemma parse_members_S f s :
  parse_members (S f) (String "034" s)
  = match scan_string s with
    | Some (k, r1) =>
        match strip_prefix ":" (skip_ws r1) with
        | Some r2 =>
            match parse_value f (skip_ws r2) with
            | Some (v, r3) =>
                match strip_prefix "," (skip_ws r3) with
                | Some r4 =>
                    with_value (cons (k, v)) (parse_members f (skip_ws r4))
                | None =>
                    match strip_prefix "}" (skip_ws r3) with
                    | Some r4 => Some ([(k, v)], r4)
                    | None => None
                    end
                end
            | None => None
            end
        | None => None
        end
    | None => None
    end.
Proof. reflexivity. Qed.

Lemma parse_value_array f s :
  starts_value s ->
  parse_value (S f) (String "[" (skip_ws s))
  = with_value JArr (parse_elems f s)
  /\ parse_value (S f) (String "[" s) = with_value JArr (parse_elems f s).
Proof.
  intros Hs. rewrite !parse_value_bracket, !(skip_ws_value _ Hs).
  now destruct (value_not_closing _ Hs) as (-> & _ & _).
Qed.

(** Decoding what was encoded. *)

Lemma items_size_cons x l :
  items_size (x :: l) = (S (json_size x) + items_size l)%nat.
Proof. reflexivity. Qed.

Lemma members_size_cons kv m :
  members_size (kv :: m) = (S (json_size (snd kv)) + members_size m)%nat.
Proof. reflexivity. Qed.

Lemma json_size_arr l : json_size (JArr l) = S (items_size l).
Proof. reflexivity. Qed.

Lemma json_size_obj m : json_size (JObj m) = S (members_size m).
Proof. reflexivity. Qed.

Lemma parse_items indent lvl k l :
  Forall decodes l ->
  forall x f,
    decodes x -> (json_size x + items_size l < f)%nat ->
    parse_elems f (json_encode indent (S lvl) x (encode_items indent lvl l k))
    = Some (x :: l, k).
Proof.
  induction l as [ | y l IH]; intros Hl x f Hx Hf;
    (destruct f as [ | f]; [lia | ]); rewrite parse_elems_S;
    rewrite ?items_size_cons in Hf.
  - rewrite Hx; [ | lia | apply encode_items_delimited].
    cbn [encode_items]. rewrite skip_ws_pad. reflexivity.
  - rewrite Hx; [ | lia | apply encode_items_delimited].
    cbn [encode_items].
    destruct (next_item indent (S lvl)
                (json_encode indent (S lvl) y (encode_items indent lvl l k))
                (encode_starts_value _ _ _ _)) as (r & -> & ->).
    inversion Hl as [ | ? ? Hy Hl']; subst.
    rewrite IH; [reflexivity | assumption | assumption | lia].
Qed.

Lemma after_key s :
  starts_value s ->
  strip_prefix ":" (skip_ws (String ":" (String " " s)))
  = Some (String " " s)
  /\ skip_ws (String " " s) = s.
Proof.
  intros Hs. split; [reflexivity | ].
  change (skip_ws (String " " s)) with (skip_ws s). now apply skip_ws_value.
Qed.

Lemma parse_pairs indent lvl k m :
  Forall (fun kv => decodes (snd kv)) m ->
  forall key x f,
    decodes x -> (json_size x + members_size m < f)%nat ->
    parse_members f
      (quote key (String ":" (String " "
         (json_encode indent (S lvl) x (encode_members indent lvl m k)))))
    = Some ((key, x) :: m, k).
Proof.
  induction m as [ | [key' y] m IH]; intros Hm key x f Hx Hf;
    (destruct f as [ | f]; [lia | ]); unfold quote;
    rewrite parse_members_S, scan_escape;
    rewrite ?members_size_cons in Hf; cbn [snd] in Hf;
    match goal with
    | |- context [String ":" (String " " ?s)] =>
        destruct (after_key s (encode_starts_value _ _ _ _)) as [-> ->]
    end.
  - rewrite Hx; [ | lia | apply encode_members_delimited].
    cbn [encode_members]. rewrite skip_ws_pad. reflexivity.
  - rewrite Hx; [ | lia | apply encode_members_delimited].
    cbn [encode_members].
    destruct (next_item indent (S lvl)
                (quote key' (String ":" (String " "
                   (json_encode indent (S lvl) y
                      (encode_members indent lvl m k)))))
                eq_refl) as (r & -> & ->).
    inversion Hm as [ | ? ? Hy Hm']; subst. cbn [snd] in Hy.
    rewrite IH; [reflexivity | assumption | assumption | lia].
Qed.

Lemma well_formed_decodes v : well_formed v -> decodes v.
Proof.
  induction v as [ | b | n | s | l IH | m IH] using json_induction;
    intros Hwf indent lvl fuel k Hfuel Hk;
    (destruct fuel as [ | f]; [cbn in Hfuel; lia | ]).
  - reflexivity.
  - now destruct b.
  - cbn [json_encode].
    rewrite (parse_value_number f _ (str_Z_head n k)).
    now rewrite scan_number_str_Z.
  - cbn [json_encode]. unfold quote.
    now rewrite parse_value_quote, scan_escape.
  - destruct l as [ | x l]; [reflexivity | ].
    rewrite encode_array, parse_value_bracket, skip_ws_pad.
    rewrite (skip_ws_value _ (encode_starts_value _ _ _ _)).
    destruct (value_not_closing _ (encode_starts_value indent (S lvl) x
                (encode_items indent lvl l k))) as (-> & _ & _).
    inversion Hwf as [ | | | | ? Hall | ]; subst.
    assert (Hdec : Forall decodes (x :: l)).
    { apply Forall_forall. intros y Hy.
      apply (proj1 (Forall_forall _ _) IH y Hy).
      apply (proj1 (Forall_forall _ _) Hall y Hy). }
    inversion Hdec; subst.
    rewrite parse_items; [reflexivity | assumption | assumption | ].
    rewrite json_size_arr, items_size_cons in Hfuel. lia.
  - destruct m as [ | [key x] m]; [reflexivity | ].
    rewrite encode_object, parse_value_brace, skip_ws_pad.
    rewrite (skip_ws_value (quote key _) eq_refl).
    destruct (value_not_closing (quote key (String ":" (String " "
                (json_encode indent (S lvl) x
                   (encode_members indent lvl m k))))) eq_refl)
      as (_ & -> & _).
    inversion Hwf as [ | | | | | ? Hkeys Hall]; subst.
    assert (Hdec : Forall (fun kv => decodes (snd kv)) ((key, x) :: m)).
    { apply Forall_forall. intros kv Hkv.
      apply (proj1 (Forall_forall _ _) IH kv Hkv).
      apply (proj1 (Forall_forall _ _) Hall kv Hkv). }
    inversion Hdec; subst. cbn [snd] in *.
    rewrite parse_pairs; [ | assumption | assumption | ].
    + cbn [with_value]. now rewrite dict_of_pairs_unique.
    + rewrite json_size_obj, members_size_cons in Hfuel. cbn [snd] in Hfuel.
      lia.
Qed.

(** An encoded value is at least as long as the value is large. *)

Lemma length_spaces n k : (String.length k <= String.length (spaces n k))%nat.
Proof. induction n; cbn [spaces String.length]; lia. Qed.

Lemma length_pad indent lvl k :
  (String.length k <= String.length (pad indent lvl k))%nat.
Proof.
  destruct indent; cbn [pad String.length]; [ | lia].
  pose proof (length_spaces (2 * lvl) k). lia.
Qed.

Lemma length_item_sep indent lvl k :
  (S (String.length k) <= String.length (item_sep indent lvl k))%nat.
Proof.
  destruct indent; cbn [item_sep String.length]; [ | lia].
  pose proof (length_pad true lvl k). lia.
Qed.

Lemma length_escape_char c k :
  (String.length k <= String.length (escape_char c k))%nat.
Proof.
  unfold escape_char.
  repeat match goal with
         | |- context [if ?b then _ else _] => destruct b
         end; cbn [String.length]; lia.
Qed.

Lemma length_escape s k : (String.length k <= String.length (escape s k))%nat.
Proof.
  induction s as [ | c s IH]; cbn [escape]; [lia | ].
  pose proof (length_escape_char c (escape s k)). lia.
Qed.

Lemma length_quote s k :
  (2 + String.length k <= String.length (quote s k))%nat.
Proof.
  unfold quote. cbn [String.length].
  pose proof (length_escape s (String "034" k)). cbn [String.length] in *. lia.
Qed.

Lemma length_app s k :
  String.length (s ++ k) = (String.length s + String.length k)%nat.
Proof. induction s; cbn [append String.length]; lia. Qed.

Lemma length_uint d :
  d <> Decimal.Nil -> (1 <= String.length (NilEmpty.string_of_uint d))%nat.
Proof. destruct d; cbn [NilEmpty.string_of_uint String.length]; try lia. now intros H. Qed.

Lemma length_str_Z n : (1 <= String.length (str_Z n))%nat.
Proof.
  destruct n as [ | p | p]; cbn [str_Z String.length]; try lia.
  apply length_uint, DecimalPos.Unsigned.to_uint_nonnil.
Qed.

Lemma items_fit indent lvl k l :
  Forall fits l ->
  (items_size l + S (String.length k)
   <= String.length (encode_items indent lvl l k))%nat.
Proof.
  induction l as [ | y l IH]; intros Hl; cbn [encode_items].
  - pose proof (length_pad indent lvl (String "]" k)) as H.
    cbn [String.length] in H. unfold items_size. cbn. lia.
  - inversion Hl as [ | ? ? Hy Hl']; subst. rewrite items_size_cons.
    pose proof (length_item_sep indent (S lvl)
                  (json_encode indent (S lvl) y (encode_items indent lvl l k))).
    pose proof (Hy indent (S lvl) (encode_items indent lvl l k)).
    specialize (IH Hl'). lia.
Qed.

Lemma members_fit indent lvl k m :
  Forall (fun kv => fits (snd kv)) m ->
  (members_size m + S (String.length k)
   <= String.length (encode_members indent lvl m k))%nat.
Proof.
  induction m as [ | [key y] m IH]; intros Hm; cbn [encode_members].
  - pose proof (length_pad indent lvl (String "}" k)) as H.
    cbn [String.length] in H. unfold members_size. cbn. lia.
  - inversion Hm as [ | ? ? Hy Hm']; subst. rewrite members_size_cons.
    cbn [snd] in *.
    set (rest := json_encode indent (S lvl) y (encode_members indent lvl m k)).
    pose proof (length_item_sep indent (S lvl)
                  (quote key (String ":" (String " " rest)))).
    pose proof (length_quote key (String ":" (String " " rest))) as Hq.
    cbn [String.length] in Hq.
    pose proof (Hy indent (S lvl) (encode_members indent lvl m k)).
    fold rest in H0. specialize (IH Hm'). lia.
Qed.

Lemma encoding_fits v : fits v.
Proof.
  induction v as [ | b | n | s | l IH | m IH] using json_induction;
    intros indent lvl k.
  - cbn. lia.
  - destruct b; cbn; lia.
  - cbn [json_encode json_size]. rewrite length_app.
    pose proof (length_str_Z n). lia.
  - cbn [json_encode json_size]. pose proof (length_quote s k). lia.
  - destruct l as [ | x l]; [cbn; lia | ].
    rewrite encode_array, json_size_arr, items_size_cons.
    inversion IH as [ | ? ? Hx Hl]; subst. cbn [String.length].
    pose proof (length_pad indent (S lvl)
                  (json_encode indent (S lvl) x (encode_items indent lvl l k))).
    pose proof (Hx indent (S lvl) (encode_items indent lvl l k)).
    pose proof (items_fit indent lvl k l Hl). lia.
  - destruct m as [ | [key x] m]; [cbn; lia | ].
    rewrite encode_object, json_size_obj, members_size_cons.
    inversion IH as [ | ? ? Hx Hm]; subst. cbn [String.length snd] in *.
    set (rest := json_encode indent (S lvl) x (encode_members indent lvl m k)).
    pose proof (length_pad indent (S lvl)
                  (quote key (String ":" (String " " rest)))).
    pose proof (length_quote key (String ":" (String " " rest))) as Hq.
    cbn [String.length] in Hq.
    pose proof (Hx indent (S lvl) (encode_members indent lvl m k)) as Hr.
    fold rest in Hr.
    pose proof (members_fit indent lvl k m Hm). lia.
Qed.

(** A well-formed value is read back from either layout. *)
Lemma json_loads_encode indent v :
  well_formed v -> json_loads (json_encode indent 0 v EmptyString) = Ok v.
Proof.
  intros Hwf. unfold json_loads.
  rewrite (skip_ws_value _ (encode_starts_value _ _ _ _)).
  rewrite (well_formed_decodes v Hwf); [reflexivity | | exact I].
  pose proof (encoding_fits v indent 0%nat EmptyString). lia.
Qed.

(** What the decoder returns is well formed. *)

Lemma dict_set_keys m k v x :
  In x (map fst (dict_set m k v)) -> x = k \/ In x (map fst m).
Proof.
  induction m as [ | [k' v'] m IH]; cbn.
  - intros [H | []]. now left.
  - destruct (String.eqb k k'); cbn; intros [H | H]; auto.
    destruct (IH H); auto.
Qed.

Lemma dict_set_unique m k v :
  NoDup (map fst m) -> NoDup (map fst (dict_set m k v)).
Proof.
  induction m as [ | [k' v'] m IH]; cbn; intros H.
  - constructor; [now intros [] | constructor].
  - inversion H as [ | ? ? Hk Hm]; subst.
    destruct (String.eqb_spec k k') as [-> | Hne]; cbn.
    + now constructor.
    + constructor; [ | now apply IH].
      intros Hin. apply dict_set_keys in Hin. destruct Hin; auto.
Qed.

Lemma dict_set_all (P : json -> Prop) m k v :
  Forall (fun kv => P (snd kv)) m -> P v ->
  Forall (fun kv => P (snd kv)) (dict_set m k v).
Proof.
  induction m as [ | [k' v'] m IH]; cbn; intros Hm Hv.
  - now constructor.
  - inversion Hm; subst. destruct (String.eqb k k'); constructor; auto.
Qed.

Lemma dict_of_pairs_well_formed ps :
  Forall (fun kv => well_formed (snd kv)) ps ->
  well_formed (JObj (dict_of_pairs ps)).
Proof.
  intros Hps. unfold dict_of_pairs.
  assert (H : forall acc,
            NoDup (map fst acc) ->
            Forall (fun kv => well_formed (snd kv)) acc ->
            let d := fold_left (fun d kv => dict_set d (fst kv) (snd kv)) ps acc in
            NoDup (map fst d) /\ Forall (fun kv => well_formed (snd kv)) d).
  { induction Hps as [ | kv ps Hkv Hps IH]; intros acc Hn Ha; cbn.
    - now split.
    - apply IH; [now apply dict_set_unique | now apply dict_set_all]. }
  destruct (H [] (NoDup_nil _) (Forall_nil _)). now constructor.
Qed.

Lemma with_value_inv {A B} (g : A -> B) r b rest :
  with_value g r = Some (b, rest) ->
  exists a, r = Some (a, rest) /\ b = g a.
Proof.
  destruct r as [[a rest'] | ]; cbn; [ | discriminate].
  intros H. inversion H; subst. now exists a.
Qed.

Lemma parse_value_S f s :
  parse_value (S f) s
  = match strip_prefix "null" s with
    | Some r => Some (JNull, r)
    | None =>
    match strip_prefix "true" s with
    | Some r => Some (JBool true, r)
    | None =>
    match strip_prefix "false" s with
    | Some r => Some (JBool false, r)
    | None =>
    match strip_prefix (String "034" EmptyString) s with
    | Some r => with_value JStr (scan_string r)
    | None =>
    match strip_prefix "[" s with
    | Some r =>
        match strip_prefix "]" (skip_ws r) with
        | Some r' => Some (JArr [], r')
        | None => with_value JArr (parse_elems f (skip_ws r))
        end
    | None =>
    match strip_prefix "{" s with
    | Some r =>
        match strip_prefix "}" (skip_ws r) with
        | Some r' => Some (JObj [], r')
        | None =>
            with_value (fun m => JObj (dict_of_pairs m))
              (parse_members f (skip_ws r))
        end
    | None => with_value JInt (scan_number s)
    end end end end end end.
Proof. reflexivity. Qed.

Lemma parse_members_any f s :
  parse_members (S f) s
  = match strip_prefix (String "034" EmptyString) s with
    | Some r => parse_members (S f) (String "034" r)
    | None => None
    end.
Proof.
  destruct s as [ | c r]; [reflexivity | ].
  destruct c as [[] [] [] [] [] [] [] []]; reflexivity.
Qed.

Lemma parse_well_formed fuel :
  (forall s v r, parse_value fuel s = Some (v, r) -> well_formed v)
  /\ (forall s l r, parse_elems fuel s = Some (l, r) -> Forall well_formed l)
  /\ (forall s m r, parse_members fuel s = Some (m, r) ->
      Forall (fun kv => well_formed (snd kv)) m).
Proof.
  induction fuel as [ | f (IHv & IHe & IHm)];
    [repeat split; intros; discriminate | ].
  repeat split.
  - intros s v r. rewrite parse_value_S.
    repeat match goal with
           | |- context [match strip_prefix ?p ?x with _ => _ end] =>
               destruct (strip_prefix p x)
           end;
      intros H;
      try (inversion H; subst; constructor; constructor);
      apply with_value_inv in H; destruct H as (a & Ha & ->).
    + constructor.
    + constructor. now apply (IHe _ _ _ Ha).
    + apply dict_of_pairs_well_formed. now apply (IHm _ _ _ Ha).
    + constructor.
  - intros s l r. rewrite parse_elems_S.
    destruct (parse_value f s) as [[v r1] | ] eqn:Hv; [ | discriminate].
    destruct (strip_prefix "," (skip_ws r1)) as [r2 | ].
    + intros H. apply with_value_inv in H. destruct H as (a & Ha & ->).
      constructor; [now apply (IHv _ _ _ Hv) | now apply (IHe _ _ _ Ha)].
    + destruct (strip_prefix "]" (skip_ws r1)); [ | discriminate].
      intros H. inversion H; subst.
      constructor; [now apply (IHv _ _ _ Hv) | constructor].
  - intros s m r. rewrite parse_members_any.
    destruct (strip_prefix (String "034" EmptyString) s) as [s' | ]; [ | discriminate].
    rewrite parse_members_S.
    destruct (scan_string s') as [[k r1] | ]; [ | discriminate].
    destruct (strip_prefix ":" (skip_ws r1)) as [r2 | ]; [ | discriminate].
    destruct (parse_value f (skip_ws r2)) as [[v r3] | ] eqn:Hv;
      [ | discriminate].
    destruct (strip_prefix "," (skip_ws r3)) as [r4 | ].
    + intros H. apply with_value_inv in H. destruct H as (a & Ha & ->).
      constructor; [now apply (IHv _ _ _ Hv) | now apply (IHm _ _ _ Ha)].
    + destruct (strip_prefix "}" (skip_ws r3)); [ | discriminate].
      intros H. inversion H; subst.
      constructor; [now apply (IHv _ _ _ Hv) | constructor].
Qed.

Lemma json_loads_well_formed s v : json_loads s = Ok v -> well_formed v.
Proof.
  unfold json_loads.
  destruct (parse_value _ _) as [[v' r] | ] eqn:Hp; [ | discriminate].
  destruct (skip_ws r); [ | discriminate].
  intros H. inversion H; subst.
  now apply (proj1 (parse_well_formed _) _ _ _ Hp).
Qed.

(** What [json.load] returned is written and read back unchanged. *)
Lemma json_reload s v :
  json_loads s = Ok v -> json_loads (json_dump_indent2 v) = Ok v.
Proof. intros H. apply json_loads_encode. now apply json_loads_well_formed in H. Qed.

(** *** Refreshing an expired record *)

Lemma refresh_tokens_ordinary cid csec tokens w e w' :
  trakt_refresh_tokens cid csec tokens w = (Raise e, w') ->
  is_Exception e = true.
Proof.
  intros H.
  assert (P : preserves (quiet no_event) ordinary
                (trakt_refresh_tokens cid csec tokens))
    by (apply q_refresh_tokens;
        first [apply no_event_requests | apply no_event_unselected]).
  now destruct (preserves_exn _ _ _ _ _ _ P H).
Qed.

Lemma refresh_attempt_failed cid csec tokens w e w1 :
  trakt_refresh_tokens cid csec tokens w = (Raise e, w1) ->
  refresh_attempt cid csec tokens w
  = (Ok None, emit (refresh_failed_event e) w1).
Proof.
  intros H. unfold refresh_attempt.
  rewrite (try_except_caught _ _ w e w1).
  - reflexivity.
  - now rewrite (bind_raise _ _ _ _ _ H).
  - apply (refresh_tokens_ordinary _ _ _ _ _ _ H).
Qed.

Lemma refresh_attempt_done cid csec tokens w new_tokens w1 :
  trakt_refresh_tokens cid csec tokens w = (Ok new_tokens, w1) ->
  refresh_attempt cid csec tokens w
  = (Ok (Some new_tokens),
     emit refreshed_event
       (set_token_file (Some (json_dump_indent2 new_tokens)) w1)).
Proof.
  intros H. unfold refresh_attempt.
  apply try_except_ok. now rewrite (bind_ok _ _ _ _ _ H).
Qed.

(** The way of [trakt_get_valid_tokens] to its [try] statement. *)
Lemma get_valid_tokens_refreshing cid csec w tokens w0 :
  fst (trakt_load_tokens w) = Ok tokens ->
  truthy tokens = true ->
  trakt_is_token_expired tokens w = (Ok true, w0) ->
  py_in "refresh_token" tokens = Ok true ->
  trakt_get_valid_tokens cid csec w
  = match refresh_attempt cid csec tokens w0 with
    | (Ok (Some new_tokens), w') => (Ok new_tokens, w')
    | (Ok None, w') => pin_authorization cid csec w'
    | (Raise e, w') => (Raise e, w')
    end.
Proof.
  intros Hload Hpresent Hexpired Hrefresh.
  unfold trakt_get_valid_tokens.
  rewrite (bind_ok _ _ _ _ _ (load_tokens_eq _ _ Hload)).
  rewrite Hpresent, Hrefresh. unfold bind at 1. unfold bind at 1.
  rewrite Hexpired. cbn [negb ret]. unfold bind, lift.
  now destruct (refresh_attempt cid csec tokens w0) as [[[t | ] | e] w'].
Qed.

Lemma pin_authorization_no_pin cid csec w line rest :
  stdin w = line :: rest -> strip line = EmptyString ->
  exists w',
    pin_authorization cid csec w = (Raise (Exception no_pin_message), w')
    /\ network_calls w' = network_calls w /\ network w' = network w
    /\ token_file w' = token_file w /\ stdin w' = rest.
Proof.
  intros Hin Hpin. unfold pin_authorization, bind, print, input. cbn.
  rewrite Hin, Hpin. cbn. eexists. split; [reflexivity | ]. now cbn.
Qed.

(** What the refresh exchange raises on each kind of failure. *)
Lemma refresh_failure_modes cid csec m rt w :
  dict_get m "refresh_token" = Some rt ->
  match network w with
  | [] => exists reason,
      fst (trakt_refresh_tokens cid csec (JObj m) w) = Raise (URLError reason)
  | NoReply reason :: _ =>
      fst (trakt_refresh_tokens cid csec (JObj m) w) = Raise (URLError reason)
  | Reply status body :: _ =>
      if (Z.leb 200 status && Z.ltb status 300)%bool
      then fst (trakt_refresh_tokens cid csec (JObj m) w) = json_loads body
      else fst (trakt_refresh_tokens cid csec (JObj m) w)
           = Raise (HTTPError status body)
  end.
Proof.
  intros Hrt. unfold trakt_refresh_tokens, trakt_post_json, bind, lift, urlopen.
  cbn. rewrite Hrt. cbn.
  destruct (network w) as [ | [status body | reason] rs]; cbn.
  - now eexists.
  - now destruct (Z.leb 200 status && Z.ltb status 300)%bool.
  - reflexivity.
Qed.

(** C6.  When the token file holds an expired record with a
    [refresh_token] and the refresh exchange raises, whatever the
    exception, [trakt_get_valid_tokens] does not raise it: it logs the
    failure and goes on with the PIN authorization.  When the line then read
    is empty once stripped, it raises [Exception] with the message
    "No PIN entered. Cannot authenticate Trakt.", after no further network
    call and without writing the token file. *)
Theorem failed_refresh_falls_back_to_pin (cid csec : option string)
    (w : world) (tokens : json) (w0 : world) (e : exn) (w1 : world) :
  fst (trakt_load_tokens w) = Ok tokens ->
  truthy tokens = true ->
  trakt_is_token_expired tokens w = (Ok true, w0) ->
  py_in "refresh_token" tokens = Ok true ->
  trakt_refresh_tokens cid csec tokens w0 = (Raise e, w1) ->
  trakt_get_valid_tokens cid csec w
  = pin_authorization cid csec (emit (refresh_failed_event e) w1)
  /\ forall line rest,
       stdin w1 = line :: rest -> strip line = EmptyString ->
       exists w',
         trakt_get_valid_tokens cid csec w
         = (Raise (Exception no_pin_message), w')
         /\ network_calls w' = network_calls w1 /\ network w' = network w1
         /\ token_file w' = token_file w1 /\ stdin w' = rest.
Proof.
  intros Hload Hpresent Hexpired Hrefresh Hfail.
  assert (Hrun : trakt_get_valid_tokens cid csec w
                 = pin_authorization cid csec (emit (refresh_failed_event e) w1)).
  { rewrite (get_valid_tokens_refreshing _ _ _ _ _ Hload Hpresent Hexpired
               Hrefresh).
    now rewrite (refresh_attempt_failed _ _ _ _ _ _ Hfail). }
  split; [exact Hrun | ].
  intros line rest Hin Hpin. rewrite Hrun.
  apply (pin_authorization_no_pin cid csec
           (emit (refresh_failed_event e) w1) line rest); assumption.
Qed.

Lemma failed_refresh_falls_back_to_pin_witness :
  let w := world_at 2000 stale_file ["  "] [NoReply "timed out"] in
  let run := trakt_get_valid_tokens (Some "id") (Some "secret") w in
  fst run = Raise (Exception no_pin_message)
  /\ network_calls (snd run) = 1%nat /\ token_file (snd run) = stale_file.
Proof.
  cbv zeta.
  edestruct (failed_refresh_falls_back_to_pin (Some "id") (Some "secret")
               (world_at 2000 stale_file ["  "] [NoReply "timed out"])
               (token_record "at" "rt" 1000 100)) as [_ H];
    [reflexivity | reflexivity | reflexivity | reflexivity | reflexivity | ].
  edestruct H as (w' & Hr & Hn & _ & Hf & _); [reflexivity | reflexivity | ].
  rewrite Hr. cbn [fst snd]. split; [reflexivity | ].
  split; [rewrite Hn | rewrite Hf]; reflexivity.
Defined.

Lemma refresh_request_selected cid csec url rt :
  is_refresh_exchange
    (EvUrlopen (post_json_request url (refresh_payload cid csec rt))) = true.
Proof. reflexivity. Qed.

Lemma pin_request_unselected cid csec :
  pin_unselected is_refresh_exchange cid csec.
Proof. intros pin. reflexivity. Qed.

(** The refresh exchange calls [urlopen] once, on the refresh-token grant,
    and leaves the token file alone. *)
Lemma refresh_tokens_sends cid csec m rt w :
  dict_get m "refresh_token" = Some rt ->
  let w' := snd (trakt_refresh_tokens cid csec (JObj m) w) in
  trace w'
  = EvUrlopen (post_json_request oauth_token_url (refresh_payload cid csec rt))
    :: trace w
  /\ token_file w' = token_file w.
Proof.
  intros Hrt. unfold trakt_refresh_tokens, trakt_post_json, bind, lift, urlopen.
  cbn. rewrite Hrt. cbn.
  destruct (network w) as [ | [status body | reason] rs]; cbn; auto.
  destruct (Z.leb 200 status && Z.ltb status 300)%bool; cbn; auto.
Qed.

Lemma refresh_tokens_result cid csec tokens w v w' :
  trakt_refresh_tokens cid csec tokens w = (Ok v, w') ->
  exists body, json_loads body = Ok v.
Proof.
  unfold trakt_refresh_tokens, trakt_post_json, bind, lift.
  destruct (py_getitem tokens "refresh_token") as [rt | ]; [ | discriminate].
  destruct (urlopen _ w) as [[[status body] | e] w1]; [ | discriminate].
  intros H. exists body. now inversion H.
Qed.

Lemma dict_get_present m k v :
  dict_get m k = Some v ->
  truthy (JObj m) = true /\ py_in k (JObj m) = Ok true.
Proof.
  intros H. split; [now destruct m | ]. cbn. now rewrite H.
Qed.

(** C7 (as amended).  When the token file holds a dict with a
    [refresh_token] on which [trakt_is_token_expired] answers [True],
    [trakt_get_valid_tokens] sends exactly one refresh-token grant.  When
    that exchange returns, its result is returned after one network call,
    the token file holds it, and loading the file yields the same value.
    The new record is not expired right after the save provided its
    [created_at] and [expires_in] are integers with
    [now <= created_at + expires_in - 60]: the answer of the service is
    saved as it came. *)
Theorem refresh_of_expired_record (cid csec : option string) (w : world)
    (m : list (string * json)) (rt : json) (w0 : world) :
  fst (trakt_load_tokens w) = Ok (JObj m) ->
  dict_get m "refresh_token" = Some rt ->
  trakt_is_token_expired (JObj m) w = (Ok true, w0) ->
  let run := trakt_get_valid_tokens cid csec w in
  refresh_exchanges (snd run) = (refresh_exchanges w + 1)%nat
  /\ forall new_tokens w1,
       trakt_refresh_tokens cid csec (JObj m) w0 = (Ok new_tokens, w1) ->
       fst run = Ok new_tokens
       /\ network_calls (snd run) = (network_calls w + 1)%nat
       /\ token_file (snd run) = Some (json_dump_indent2 new_tokens)
       /\ fst (trakt_load_tokens (snd run)) = Ok new_tokens
       /\ forall d c e,
            new_tokens = JObj d ->
            int_field d "created_at" = Some c ->
            int_field d "expires_in" = Some e ->
            (now (snd run) <= inject_Z (c + e - 60))%Q ->
            fst (trakt_is_token_expired new_tokens (snd run)) = Ok false.
Proof.
  intros Hload Hrt Hexpired. cbv zeta.
  destruct (dict_get_present _ _ _ Hrt) as [Hpresent Hin].
  rewrite (get_valid_tokens_refreshing _ _ _ _ _ Hload Hpresent Hexpired Hin).
  destruct (is_token_expired_frame (JObj m) w) as (Ht0 & _).
  rewrite Hexpired in Ht0. cbn [snd] in Ht0.
  destruct (refresh_tokens_sends cid csec m rt w0 Hrt) as [Ht1 Hf1].
  destruct (trakt_refresh_tokens cid csec (JObj m) w0) as [[v | e] w1] eqn:Hr;
    cbn [snd] in Ht1, Hf1.
  - rewrite (refresh_attempt_done _ _ _ _ _ _ Hr). cbn [fst snd].
    split.
    + unfold refresh_exchanges. cbn [trace emit set_token_file].
      rewrite Ht1, Ht0. cbn. lia.
    + intros new_tokens w1' Heq. inversion Heq; subst new_tokens w1'.
      split; [reflexivity | ].
      split; [unfold network_calls; cbn [trace emit set_token_file];
              rewrite Ht1, Ht0; cbn; lia | ].
      split; [reflexivity | ].
      split.
      * unfold trakt_load_tokens. cbn [token_file emit set_token_file fst].
        destruct (refresh_tokens_result _ _ _ _ _ _ Hr) as [body Hbody].
        apply (json_reload body v Hbody).
      * intros d c e' -> Hc He Hle.
        rewrite (is_token_expired_dict d _ c e' Hc He). cbn [fst]. f_equal.
        now apply negb_Qle_false.
  - rewrite (refresh_attempt_failed _ _ _ _ _ _ Hr).
    split; [ | intros ? ? Heq; discriminate].
    assert (P : preserves (quiet is_refresh_exchange) ordinary
                  (pin_authorization cid csec)).
    { apply q_pin_authorization_gen; [ | apply pin_request_unselected].
      intros ev Hev. now destruct ev. }
    destruct (P (emit (refresh_failed_event e) w1)) as [Hq _].
    unfold quiet in Hq. unfold refresh_exchanges. rewrite Hq.
    cbn [trace emit]. rewrite Ht1, Ht0. cbn. lia.
Qed.

Lemma refresh_of_expired_record_witness :
  let answer := token_record "at2" "rt2" 2000 7200 in
  let w := world_at 2000 stale_file [] [Reply 200 (json_dumps answer)] in
  let run := trakt_get_valid_tokens (Some "id") (Some "secret") w in
  refresh_exchanges (snd run) = 1%nat
  /\ fst run = Ok answer
  /\ fst (trakt_load_tokens (snd run)) = Ok answer
  /\ fst (trakt_is_token_expired answer (snd run)) = Ok false.
Proof.
  cbv zeta.
  edestruct (refresh_of_expired_record (Some "id") (Some "secret")
               (world_at 2000 stale_file []
                  [Reply 200 (json_dumps (token_record "at2" "rt2" 2000 7200))])
               [("access_token", JStr "at"); ("refresh_token", JStr "rt");
                ("created_at", JInt 1000); ("expires_in", JInt 100)]
               (JStr "rt")) as [Hone Hnew];
    [reflexivity | reflexivity | reflexivity | ].
  split; [exact Hone | ].
  edestruct Hnew as (Hr & _ & _ & Hl & He); [reflexivity | ].
  split; [exact Hr | ]. split; [exact Hl | ].
  eapply He; [reflexivity | reflexivity | reflexivity | ].
  unfold Qle. cbn. lia.
Defined.

(** C7 (counterexample).  The clock stands at 1000000 and the service
    answers the refresh with a complete record created at 1000 that lives
    7200 seconds: the record is saved and returned after one refresh
    exchange, and [trakt_is_token_expired] answers [True] on it right after
    the save. *)
Lemma refreshed_record_expired_counterexample :
  let answer := token_record "at2" "rt2" 1000 7200 in
  let w := world_at 1000000 stale_file [] [Reply 200 (json_dumps answer)] in
  let run := trakt_get_valid_tokens (Some "id") (Some "secret") w in
  fst (trakt_load_tokens w) = Ok (token_record "at" "rt" 1000 100)
  /\ fst (trakt_is_token_expired (token_record "at" "rt" 1000 100) w) = Ok true
  /\ refresh_exchanges (snd run) = 1%nat
  /\ fst run = Ok answer
  /\ token_file (snd run) = Some (json_dump_indent2 answer)
  /\ fst (trakt_is_token_expired answer (snd run)) = Ok true.
Proof. repeat split. Qed.

(** ** Further properties of the code *)

(** *** Building the item *)

Lemma copy_if_set_dict m src dst d w :
  copy_if_set (JObj m) src dst d w
  = (Ok match truthy_field m src with
        | Some v => dict_set d dst v
        | None => d
        end, w).
Proof.
  unfold copy_if_set, truthy_field, bind, lift, ret. cbn [py_get py_getitem].
  destruct (dict_get m src) as [v | ]; [ | reflexivity].
  now destruct (truthy v).
Qed.

Lemma copy_if_set_other v src dst d w :
  (forall m, v <> JObj m) ->
  copy_if_set v src dst d w = (Raise AttributeError, w).
Proof. intros H. destruct v; try reflexivity. now contradiction (H m). Qed.

Lemma truthy_field_true m k v : truthy_field m k = Some v -> truthy v = true.
Proof.
  unfold truthy_field. destruct (dict_get m k) as [x | ]; [ | discriminate].
  destruct (truthy x) eqn:Hx; [ | discriminate]. now intros [= <-].
Qed.

Lemma format_item_cases (m : list (string * json)) (w : world) :
  exists ids rest,
    format_item (JObj m) w = (Ok (JObj (("ids", JObj ids) :: rest)), w)
    /\ dict_get ids "imdb" = truthy_field m "imdbId"
    /\ dict_get ids "tmdb" = truthy_field m "tmdbId"
    /\ dict_get ids "tvdb" = truthy_field m "tvdbId"
    /\ dict_get rest "title" = truthy_field m "title"
    /\ dict_get rest "year" = truthy_field m "year"
    /\ (forall k v, dict_get ids k = Some v ->
          truthy v = true /\ (k = "imdb" \/ k = "tmdb" \/ k = "tvdb"))
    /\ (forall k v, dict_get rest k = Some v ->
          truthy v = true /\ (k = "title" \/ k = "year")).
Proof.
  unfold format_item, bind.
  repeat (rewrite copy_if_set_dict; cbv beta iota).
  pose proof (truthy_field_true m "imdbId") as T1.
  pose proof (truthy_field_true m "tmdbId") as T2.
  pose proof (truthy_field_true m "tvdbId") as T3.
  pose proof (truthy_field_true m "title") as T4.
  pose proof (truthy_field_true m "year") as T5.
  destruct (truthy_field m "imdbId") as [a | ];
    destruct (truthy_field m "tmdbId") as [b | ];
    destruct (truthy_field m "tvdbId") as [c | ];
    destruct (truthy_field m "title") as [t | ];
    destruct (truthy_field m "year") as [y | ];
    cbn [dict_set String.eqb Ascii.eqb Bool.eqb ret];
    eexists; eexists; (split; [reflexivity | ]);
    repeat (split; [reflexivity | ]);
    (split; intros k v; cbn [dict_get];
     repeat match goal with
            | |- context [String.eqb k ?s] => destruct (String.eqb_spec k s)
            end;
     intros H; try discriminate; inversion H; subst; auto 6).
Qed.

(** X1.  On a dict [format_item] returns, leaving the world alone, an item
    whose first entry is ["ids"]; [ids] holds under [imdb], [tmdb] and [tvdb]
    the values of [imdbId], [tmdbId] and [tvdbId] that are true, and no
    other key; the item holds [title] and [year] when they are true, and no
    other key.  So no entry of the item or of its [ids] is false. *)
Theorem format_item_shape (m : list (string * json)) (w : world) :
  exists ids rest,
    format_item (JObj m) w = (Ok (JObj (("ids", JObj ids) :: rest)), w)
    /\ dict_get ids "imdb" = truthy_field m "imdbId"
    /\ dict_get ids "tmdb" = truthy_field m "tmdbId"
    /\ dict_get ids "tvdb" = truthy_field m "tvdbId"
    /\ dict_get rest "title" = truthy_field m "title"
    /\ dict_get rest "year" = truthy_field m "year"
    /\ (forall k v, dict_get ids k = Some v ->
          truthy v = true /\ (k = "imdb" \/ k = "tmdb" \/ k = "tvdb"))
    /\ (forall k v, dict_get rest k = Some v ->
          truthy v = true /\ (k = "title" \/ k = "year")).
Proof. exact (format_item_cases m w). Qed.

(** *** Dispatching an event *)

Lemma format_item_other v w :
  (forall m, v <> JObj m) -> format_item v w = (Raise AttributeError, w).
Proof.
  intros H. unfold format_item, bind. now rewrite copy_if_set_other.
Qed.

Lemma format_item_dict m w :
  exists item, format_item (JObj m) w = (Ok (JObj item), w).
Proof.
  destruct (format_item_cases m w) as (ids & rest & H & _).
  eexists. exact H.
Qed.

(** X2.  An event other than the test whose data is true but is not a dict
    (a JSON list or number given on the command line) is not sent anywhere:
    both [handle_event] methods log and print the failure of [format_item]
    and return [False]. *)
Theorem handle_event_rejects_non_dict (cid csec : option string) (h : handler)
    (event_type : string) (event_data : json) (w : world) :
  lower event_type <> "test" ->
  truthy event_data = true ->
  (forall m, event_data <> JObj m) ->
  let failed :=
    (Ok false,
     emit (EvPrint "ERROR: Failed to handle event: {e}" [AExn AttributeError])
       (emit (EvLog ERROR "Failed to handle event: {e}" [AExn AttributeError])
          w)) in
  Starrtrakt.handle_event cid csec h event_type event_data w = failed
  /\ Common.handle_event cid csec h event_type event_data w = failed.
Proof.
  intros Htest Hdata Hshape. cbv zeta.
  apply String.eqb_neq in Htest.
  unfold Starrtrakt.handle_event, Common.handle_event.
  rewrite Htest, Hdata. cbn [negb].
  unfold dispatch. rewrite (try_except_caught _ _ w AttributeError w).
  - now split.
  - now rewrite (bind_raise _ _ _ _ _ (format_item_other _ w Hshape)).
  - reflexivity.
Qed.

Lemma handle_event_rejects_non_dict_witness :
  let w := world_at 2000 fresh_file [] [Reply 201 "{}"] in
  fst (Common.handle_event (Some "id") (Some "secret") radarr_handler
         "MovieAdded" (JArr [JStr "tt1"]) w) = Ok false
  /\ network_calls
       (snd (Starrtrakt.handle_event (Some "id") (Some "secret") radarr_handler
               "MovieAdded" (JArr [JStr "tt1"]) w)) = 0%nat.
Proof.
  cbv zeta.
  destruct (handle_event_rejects_non_dict (Some "id") (Some "secret")
              radarr_handler "MovieAdded" (JArr [JStr "tt1"])
              (world_at 2000 fresh_file [] [Reply 201 "{}"])) as [Hs Hc];
    [discriminate | reflexivity | discriminate | ].
  rewrite Hs, Hc. split; reflexivity.
Defined.

(** X3.  An event whose type, in lower case, is neither the test nor in
    the add set nor in the remove set of the handler is logged and answered
    [False] by both [handle_event] methods, whatever its data: nothing is
    sent and the token file is not read. *)
Theorem handle_event_ignores_unknown (cid csec : option string) (h : handler)
    (event_type : string) (m : list (string * json)) (w : world) :
  lower event_type <> "test" ->
  m <> [] ->
  str_in (lower event_type) (add_events h) = false ->
  str_in (lower event_type) (remove_events h) = false ->
  let ignored :=
    (Ok false,
     emit (EvLog INFO "No action for event type: {event_type}"
             [AStr event_type]) w) in
  Starrtrakt.handle_event cid csec h event_type (JObj m) w = ignored
  /\ Common.handle_event cid csec h event_type (JObj m) w = ignored.
Proof.
  intros Htest Hm Hadd Hrem. cbv zeta.
  apply String.eqb_neq in Htest.
  unfold Starrtrakt.handle_event, Common.handle_event. rewrite Htest.
  assert (Ht : truthy (JObj m) = true) by (destruct m; [now contradiction Hm | reflexivity]).
  rewrite Ht. cbn [negb]. unfold dispatch.
  destruct (format_item_dict m w) as [item Hitem].
  rewrite (try_except_ok _ _ w false
             (emit (EvLog INFO "No action for event type: {event_type}"
                      [AStr event_type]) w)); [now split | ].
  rewrite (bind_ok _ _ _ _ _ Hitem). now rewrite Hadd, Hrem.
Qed.

Lemma handle_event_ignores_unknown_witness :
  let w := world_at 2000 None [] [] in
  Common.handle_event None None sonarr_handler "Grab"
    (JObj [("title", JStr "Foo")]) w
  = (Ok false,
     emit (EvLog INFO "No action for event type: {event_type}" [AStr "Grab"]) w).
Proof.
  cbv zeta.
  apply (handle_event_ignores_unknown None None sonarr_handler "Grab"
           [("title", JStr "Foo")] (world_at 2000 None [] []));
    [discriminate | discriminate | reflexivity | reflexivity].
Defined.

Lemma ordinary_catchable e : ordinary e -> catchable e.
Proof. now intros [H _]. Qed.

Section Routing.

Variable f : event -> bool.
Variables cid csec : option string.
Hypothesis f_requests : forall ev, is_urlopen ev = false -> f ev = false.
Hypothesis f_oauth : unselected f oauth_token_url.

Lemma q_format_item event_data :
  preserves (quiet f) catchable (format_item event_data).
Proof.
  pose proof ordinary_catchable.
  unfold format_item, copy_if_set. quiet_auto.
Qed.

Lemma q_make_watchlist_request action media_type item :
  unselected f (watchlist_url action) ->
  preserves (quiet f) catchable
    (_make_watchlist_request cid csec action media_type item).
Proof.
  intros Hu. unfold _make_watchlist_request.
  apply q_bind; [apply q_log_event; now apply f_requests | intros _].
  apply q_bind.
  - apply (preserves_weaken _ ordinary); [apply ordinary_catchable | ].
    now apply q_watchlist_loop.
  - intros [v | ]; [apply q_ret | ].
    apply preserves_raise; [apply quiet_refl | reflexivity].
Qed.

(** Nothing that [f] selects is sent by [dispatch] when [f] selects no
    request to the endpoint of the branch taken; and [dispatch] returns. *)
Lemma q_dispatch h event_type event_data :
  (str_in (lower event_type) (add_events h) = true ->
   unselected f (watchlist_url "add")) ->
  (str_in (lower event_type) (add_events h) = false ->
   str_in (lower event_type) (remove_events h) = true ->
   unselected f (watchlist_url "remove")) ->
  preserves (quiet f) (fun _ => False)
    (dispatch cid csec h event_type event_data).
Proof.
  intros Hadd Hrem. unfold dispatch, try_except.
  apply preserves_try_catch with (E' := catchable); [apply quiet_trans | | ].
  - apply q_bind; [apply q_format_item | intros item].
    destruct (str_in (lower event_type) (add_events h)).
    + apply q_bind;
        [apply q_make_watchlist_request; now apply Hadd | intros r].
      apply q_bind; [apply q_log; now apply f_requests | intros _].
      apply q_ret.
    + destruct (str_in (lower event_type) (remove_events h)).
      * apply q_bind;
          [apply q_make_watchlist_request; now apply Hrem | intros r].
        apply q_bind; [apply q_log; now apply f_requests | intros _].
        apply q_ret.
      * apply q_bind; [apply q_log; now apply f_requests | intros _].
        apply q_ret.
  - intros e He. unfold catchable in He. rewrite He.
    apply q_bind; [apply q_log; now apply f_requests | intros _].
    apply q_bind; [apply q_print; now apply f_requests | intros _].
    apply q_ret.
Qed.

End Routing.

Lemma returns_of_never {A} R (m : M A) w :
  preserves R (fun _ => False) m -> exists a, fst (m w) = Ok a.
Proof.
  intros H. destruct (H w) as [_ He].
  destruct (fst (m w)) as [a | e]; [now exists a | now destruct (He e)].
Qed.

Lemma dispatch_returns cid csec h event_type event_data w :
  exists b, fst (dispatch cid csec h event_type event_data w) = Ok b.
Proof.
  apply returns_of_never with (R := quiet no_event).
  apply q_dispatch;
    [ intros ev _; reflexivity | apply no_event_unselected
    | intros _; apply no_event_unselected
    | intros _ _; apply no_event_unselected ].
Qed.

Lemma handle_event_returns_starrtrakt cid csec h event_type event_data w :
  exists b,
    fst (Starrtrakt.handle_event cid csec h event_type event_data w) = Ok b.
Proof.
  unfold Starrtrakt.handle_event.
  destruct (String.eqb (lower event_type) "test");
    [apply starrtrakt_test_connection_returns | ].
  destruct (truthy event_data); cbn [negb];
    [apply dispatch_returns | now exists false].
Qed.

Lemma handle_event_returns_common cid csec h event_type event_data w :
  exists b,
    fst (Common.handle_event cid csec h event_type event_data w) = Ok b.
Proof.
  unfold Common.handle_event.
  destruct (truthy event_data); cbn [negb]; [ | now exists false].
  destruct (String.eqb (lower event_type) "test");
    [apply common_test_connection_returns | apply dispatch_returns].
Qed.

(** X4.  Neither [handle_event] method raises an [Exception]: in every
    world, for every event type and data, it returns a boolean, whatever
    the token file, the network and the standard input do. *)
Theorem handle_event_returns (cid csec : option string) (h : handler)
    (event_type : string) (event_data : json) (w : world) :
  (exists b,
     fst (Starrtrakt.handle_event cid csec h event_type event_data w) = Ok b)
  /\ (exists b,
        fst (Common.handle_event cid csec h event_type event_data w) = Ok b).
Proof.
  split;
    [apply handle_event_returns_starrtrakt | apply handle_event_returns_common].
Qed.

Lemma watchlist_urls_differ :
  watchlist_url "add" <> watchlist_url "remove"
  /\ watchlist_url "add" <> oauth_token_url
  /\ watchlist_url "remove" <> oauth_token_url.
Proof. repeat split; discriminate. Qed.

Lemma other_url_unselected url url' :
  url' <> url -> unselected (is_request_to url) url'.
Proof.
  intros H rq Hrq. cbn. rewrite Hrq. now apply String.eqb_neq.
Qed.

Lemma requests_are_urlopen url ev :
  is_urlopen ev = false -> is_request_to url ev = false.
Proof. now destruct ev. Qed.

(** X5.  [dispatch] posts to one endpoint only.  An event that is not in
    the add set sends nothing to [/sync/watchlist], and an event of the add
    set sends nothing to [/sync/watchlist/remove], however the token
    management and the retry go. *)
Theorem dispatch_routes (cid csec : option string) (h : handler)
    (event_type : string) (event_data : json) (w : world) :
  let w' := snd (dispatch cid csec h event_type event_data w) in
  (str_in (lower event_type) (add_events h) = false ->
   requests_to (watchlist_url "add") w' = requests_to (watchlist_url "add") w)
  /\ (str_in (lower event_type) (add_events h) = true ->
      requests_to (watchlist_url "remove") w'
      = requests_to (watchlist_url "remove") w).
Proof.
  destruct watchlist_urls_differ as (Har & Hao & Hro). cbv zeta. split; intros Hev.
  - apply (q_dispatch (is_request_to (watchlist_url "add")) cid csec
             (requests_are_urlopen _) (other_url_unselected _ _ (not_eq_sym Hao))
             h event_type event_data).
    + rewrite Hev. discriminate.
    + intros _ _. apply other_url_unselected. now apply not_eq_sym.
  - apply (q_dispatch (is_request_to (watchlist_url "remove")) cid csec
             (requests_are_urlopen _) (other_url_unselected _ _ (not_eq_sym Hro))
             h event_type event_data).
    + intros _. now apply other_url_unselected.
    + rewrite Hev. discriminate.
Qed.

Lemma dispatch_routes_witness :
  let w := world_at 2000 fresh_file [] [Reply 200 "{}"] in
  let w' := snd (dispatch (Some "id") (Some "secret") radarr_handler
                   "Download" (JObj [("imdbId", JStr "tt1")]) w) in
  requests_to (watchlist_url "add") w' = 0%nat
  /\ requests_to (watchlist_url "remove") w' = 1%nat.
Proof.
  cbv zeta. split; [ | reflexivity].
  apply (dispatch_routes (Some "id") (Some "secret") radarr_handler
           "Download" (JObj [("imdbId", JStr "tt1")])
           (world_at 2000 fresh_file [] [Reply 200 "{}"])).
  reflexivity.
Defined.

(** *** The event data read from the environment *)

Lemma dict_get_set_other m k k' v :
  k <> k' -> dict_get (dict_set m k' v) k = dict_get m k.
Proof.
  intros H. induction m as [ | [k0 v0] m IH]; cbn.
  - apply String.eqb_neq in H. now rewrite H.
  - destruct (String.eqb_spec k' k0) as [-> | Hk]; cbn.
    + apply String.eqb_neq in H. now rewrite H.
    + now rewrite IH.
Qed.

Lemma dict_get_set_same m k v : dict_get (dict_set m k v) k = Some v.
Proof.
  induction m as [ | [k0 v0] m IH]; cbn.
  - now rewrite String.eqb_refl.
  - destruct (String.eqb_spec k k0) as [-> | Hk]; cbn.
    + now rewrite String.eqb_refl.
    + apply String.eqb_neq in Hk. now rewrite Hk.
Qed.

Lemma env_set_eq name w :
  env_set name w = (Ok (negb (env_missing (env_get (environ w) name))), w).
Proof.
  unfold env_set, bind, getenv, ret, env_missing.
  destruct (env_get (environ w) name) as [s | ]; [ | reflexivity].
  now destruct (nonempty s).
Qed.

Lemma env_int_or_none_cases name w :
  snd (env_int_or_none name w) = w
  /\ (forall e, fst (env_int_or_none name w) = Raise e -> e = ValueError).
Proof.
  unfold env_int_or_none, bind, getenv, lift, ret, py_int.
  destruct (env_get (environ w) name) as [s | ]; cbn; [ | now split].
  destruct (match strip s with
            | String "-" r => (true, r)
            | String "+" r => (false, r)
            | _ => (false, strip s)
            end) as [neg ds].
  destruct (int_digits 0 false ds); cbn; split; try reflexivity;
    try discriminate.
  now intros e [= <-].
Qed.

Lemma add_numeric_ids_step h id_type rest data w :
  add_numeric_ids h (id_type :: rest) data w
  = if env_missing (env_get (environ w) (env_prefix h ++ "_" ++ id_type))
    then add_numeric_ids h rest data w
    else match env_int_or_none (env_prefix h ++ "_" ++ id_type) w with
         | (Ok v, w1) => add_numeric_ids h rest (dict_set data id_type v) w1
         | (Raise e, w1) => (Raise e, w1)
         end.
Proof.
  cbn [add_numeric_ids]. unfold bind at 1. rewrite env_set_eq.
  destruct (env_missing _); cbn [negb]; [reflexivity | ].
  unfold bind.
  now destruct (env_int_or_none (env_prefix h ++ "_" ++ id_type) w)
    as [[v | e] w1].
Qed.

Lemma add_numeric_ids_cases h id_types data w :
  snd (add_numeric_ids h id_types data w) = w
  /\ (forall e, fst (add_numeric_ids h id_types data w) = Raise e ->
      e = ValueError)
  /\ (forall data', fst (add_numeric_ids h id_types data w) = Ok data' ->
      forall k, ~ In k id_types -> dict_get data' k = dict_get data k).
Proof.
  revert data. induction id_types as [ | id_type rest IH]; intros data.
  - cbn. repeat split; try discriminate. now intros data' [= <-].
  - rewrite add_numeric_ids_step.
    destruct (env_missing _).
    + destruct (IH data) as (H1 & H2 & H3). repeat split; auto.
      intros data' Hd k Hk. apply (H3 data' Hd k).
      intros Hin. apply Hk. now right.
    + destruct (env_int_or_none_cases (env_prefix h ++ "_" ++ id_type) w)
        as [Hw He].
      destruct (env_int_or_none (env_prefix h ++ "_" ++ id_type) w)
        as [[v | e] w1]; cbn [fst snd] in *; subst w1.
      * destruct (IH (dict_set data id_type v)) as (H1 & H2 & H3).
        repeat split; auto.
        intros data' Hd k Hk. rewrite (H3 data' Hd k).
        -- apply dict_get_set_other. intros ->. apply Hk. now left.
        -- intros Hin. apply Hk. now right.
      * repeat split; try discriminate. intros e' [= <-]. now apply He.
Qed.

Lemma build_event_data_step h w :
  build_event_data h w
  = if env_missing (env_get (environ w) (env_prefix h ++ "_title"))
    then (Ok JNull, w)
    else match env_int_or_none (env_prefix h ++ "_year") w with
         | (Ok year, w1) =>
             match add_numeric_ids h ["tmdbid"; "tvdbid"]
                     [("title", opt_str (env_get (environ w1)
                                           (env_prefix h ++ "_title")));
                      ("year", year);
                      ("imdbId", opt_str (env_get (environ w1)
                                            (env_prefix h ++ "_imdbid")))]
                     w1 with
             | (Ok d, w2) => (Ok (JObj d), w2)
             | (Raise e, w2) => (Raise e, w2)
             end
         | (Raise e, w1) => (Raise e, w1)
         end.
Proof.
  unfold build_event_data. unfold bind at 1. rewrite env_set_eq.
  destruct (env_missing _); cbn [negb]; [reflexivity | ].
  unfold bind, getenv, ret.
  pose proof (proj1 (env_int_or_none_cases (env_prefix h ++ "_year") w)) as Hw.
  destruct (env_int_or_none (env_prefix h ++ "_year") w) as [[year | e] w1];
    [ | reflexivity].
  cbn [snd] in Hw. subst w1.
  now destruct (add_numeric_ids h ["tmdbid"; "tvdbid"] _ w) as [[d | e] w2].
Qed.

Lemma build_event_data_cases (h : handler) (w : world) :
  let title := env_get (environ w) (env_prefix h ++ "_title") in
  let run := build_event_data h w in
  snd run = w
  /\ (forall e, fst run = Raise e -> e = ValueError)
  /\ (fst run = Ok JNull <-> env_missing title = true)
  /\ (forall data, fst run = Ok data -> data <> JNull ->
      exists d t,
        data = JObj d /\ title = Some t /\ nonempty t = true
        /\ dict_get d "title" = Some (JStr t)
        /\ dict_get d "tmdbId" = None /\ dict_get d "tvdbId" = None).
Proof.
  cbv zeta. rewrite build_event_data_step.
  destruct (env_missing (env_get (environ w) (env_prefix h ++ "_title")))
    eqn:Hmiss.
  { cbn. repeat split; try discriminate; auto.
    intros data [= <-] H. now contradiction H. }
  destruct (env_int_or_none_cases (env_prefix h ++ "_year") w) as [Hw He].
  destruct (env_int_or_none (env_prefix h ++ "_year") w) as [[year | e] w1];
    cbn [fst snd] in *; subst w1.
  2:{ repeat split; try discriminate.
      intros e' [= <-]. now apply He. }
  set (base := [("title", opt_str (env_get (environ w) (env_prefix h ++ "_title")));
                ("year", year);
                ("imdbId", opt_str (env_get (environ w) (env_prefix h ++ "_imdbid")))]).
  destruct (add_numeric_ids_cases h ["tmdbid"; "tvdbid"] base w)
    as (Hw' & He' & Hk).
  destruct (add_numeric_ids h ["tmdbid"; "tvdbid"] base w) as [[d | e] w1];
    cbn [fst snd] in *; subst w1.
  2:{ repeat split; try discriminate.
      intros e' [= <-]. now apply He'. }
  split; [reflexivity | ]. split; [discriminate | ].
  split; [split; discriminate | ].
  intros data [= <-] _.
  unfold env_missing in Hmiss.
  destruct (env_get (environ w) (env_prefix h ++ "_title")) as [t | ] eqn:Ht;
    [ | discriminate].
  exists d, t. split; [reflexivity | ]. split; [reflexivity | ].
  split; [now destruct (nonempty t) | ].
  assert (Hfresh : forall k, k <> "tmdbid" -> k <> "tvdbid" ->
                     dict_get d k = dict_get base k).
  { intros k H1 H2. apply (Hk d eq_refl). intros [H | [H | []]]; congruence. }
  repeat split; rewrite Hfresh; try discriminate; reflexivity.
Qed.

(** X6.  [build_event_data] only reads the environment: the world is as
    before; it raises nothing but the [ValueError] of [int()]; it returns
    [None] exactly when the title variable is unset or empty; otherwise it
    returns a dict whose [title] is that variable and which has no key
    [tmdbId] or [tvdbId]: the numeric identifiers are stored under [tmdbid]
    and [tvdbid]. *)
Theorem build_event_data_result (h : handler) (w : world) :
  let title := env_get (environ w) (env_prefix h ++ "_title") in
  let run := build_event_data h w in
  snd run = w
  /\ (forall e, fst run = Raise e -> e = ValueError)
  /\ (fst run = Ok JNull <-> env_missing title = true)
  /\ (forall data, fst run = Ok data -> data <> JNull ->
      exists d t,
        data = JObj d /\ title = Some t /\ nonempty t = true
        /\ dict_get d "title" = Some (JStr t)
        /\ dict_get d "tmdbId" = None /\ dict_get d "tvdbId" = None).
Proof. exact (build_event_data_cases h w). Qed.

(** X7.  The identifiers that [build_event_data] reads from the [_tmdbid]
    and [_tvdbid] variables never reach the item: when it returns a dict,
    [format_item] of that dict gives an [ids] without [tmdb] and without
    [tvdb], whatever the environment holds. *)
Theorem env_numeric_ids_dropped (h : handler) (w : world) (data : json)
    (w' : world) :
  build_event_data h w = (Ok data, w') ->
  data <> JNull ->
  exists ids rest,
    format_item data w' = (Ok (JObj (("ids", JObj ids) :: rest)), w')
    /\ dict_get ids "tmdb" = None /\ dict_get ids "tvdb" = None.
Proof.
  intros Hrun Hdata.
  destruct (build_event_data_cases h w) as (_ & _ & _ & H).
  rewrite Hrun in H. cbn [fst] in H.
  destruct (H data eq_refl Hdata) as (d & t & -> & _ & _ & _ & Htm & Htv).
  destruct (format_item_cases d w') as (ids & rest & Hf & _ & H2 & H3 & _).
  exists ids, rest. split; [exact Hf | ].
  unfold truthy_field in H2, H3. now rewrite Htm in H2; rewrite Htv in H3.
Qed.

Lemma env_numeric_ids_dropped_witness :
  exists ids rest,
    format_item
      (JObj [("title", JStr "Foo"); ("year", JNull); ("imdbId", JNull);
             ("tmdbid", JInt 55)]) hook_with_tmdb
    = (Ok (JObj (("ids", JObj ids) :: rest)), hook_with_tmdb)
    /\ dict_get ids "tmdb" = None /\ dict_get ids "tvdb" = None.
Proof.
  apply (env_numeric_ids_dropped radarr_handler hook_with_tmdb);
    [reflexivity | discriminate].
Defined.

(** *** The entry points *)

Lemma exit_after {A} (pre : M A) (k : A -> M bool) (h : exn -> M unit) w :
  (forall a w', exists b, fst (k a w') = Ok b) ->
  (forall e, fst (pre w) = Raise e -> catchable e \/ e = SystemExit 1) ->
  (forall e w', fst (h e w') = Raise (SystemExit 1)) ->
  exits (fst (try_except
                (a <- pre ;; success <- k a ;;
                 sys_exit (if (success : bool) then 0 else 1))
                h w)).
Proof.
  intros Hk Hpre Hh. unfold try_except, try_catch, bind.
  destruct (pre w) as [[a | e] w1]; cbn [fst] in *.
  - destruct (Hk a w1) as [b Hb].
    destruct (k a w1) as [[b' | e] w2]; cbn [fst] in Hb; [ | discriminate].
    unfold sys_exit, raise. cbn.
    destruct b'; [now left | now right].
  - destruct (Hpre e eq_refl) as [He | ->].
    + unfold catchable in He. rewrite He. right. apply Hh.
    + cbn. now right.
Qed.

Lemma build_event_data_catchable h w e :
  fst (build_event_data h w) = Raise e -> catchable e \/ e = SystemExit 1.
Proof.
  intros H. left.
  destruct (build_event_data_cases h w) as (_ & He & _).
  now rewrite (He e H).
Qed.

Lemma json_loads_catchable text e :
  json_loads text = Raise e -> e = JSONDecodeError.
Proof.
  unfold json_loads. destruct (parse_value _ _) as [[v r] | ];
    [destruct (skip_ws r) | ]; congruence.
Qed.

Lemma radarr_main_exits cid csec w :
  exits (fst (RadarrTrakt.main cid csec w)).
Proof.
  unfold RadarrTrakt.main.
  set (h := Common.RadarrEventHandler).
  set (pre := (env_event <- getenv "radarr_eventtype" ;;
               args <- sys_argv ;;
               event_data <- match arg_at args 2 with
                             | Some text => lift (json_loads text)
                             | None => build_event_data h
                             end ;;
               ret (event_type_of env_event args, event_data))%monad).
  assert (Heq : forall hd : exn -> M unit,
            try_except
              (env_event <- getenv "radarr_eventtype" ;;
               args <- sys_argv ;;
               let event_type := event_type_of env_event args in
               event_data <- match arg_at args 2 with
                             | Some text => lift (json_loads text)
                             | None => build_event_data h
                             end ;;
               success <- Common.handle_event cid csec h event_type event_data ;;
               sys_exit (if (success : bool) then 0 else 1))%monad hd w
            = try_except
                (a <- pre ;;
                 success <- Common.handle_event cid csec h (fst a) (snd a) ;;
                 sys_exit (if (success : bool) then 0 else 1))%monad hd w).
  { intros hd. unfold try_except, try_catch, pre, bind, getenv, sys_argv, ret.
    cbv beta iota zeta. destruct (arg_at (argv w) 2) as [text | ].
    - unfold lift. destruct (json_loads text); reflexivity.
    - destruct (build_event_data h w) as [[d | e] w1]; reflexivity. }
  rewrite Heq. apply exit_after.
  - intros a w'. apply handle_event_returns_common.
  - intros e. unfold pre, bind, getenv, sys_argv, ret. cbv beta iota zeta.
    destruct (arg_at (argv w) 2) as [text | ].
    + unfold lift. destruct (json_loads text) eqn:Hj; cbn; [discriminate | ].
      intros [= <-]. left. now rewrite (json_loads_catchable _ _ Hj).
    + pose proof (build_event_data_catchable h w) as Hb.
      destruct (build_event_data h w) as [[d | e'] w1]; cbn in *;
        [discriminate | ].
      intros [= <-]. now apply Hb.
  - reflexivity.
Qed.

Lemma starrtrakt_main_exits cid csec w :
  exits (fst (Starrtrakt.main cid csec w)).
Proof.
  unfold Starrtrakt.main.
  set (service_type :=
         if negb (env_missing (env_get (environ w) "radarr_eventtype"))
         then "radarr" else "sonarr").
  set (h := Starrtrakt.EventHandler service_type).
  set (event_type :=
         event_type_of (env_get (environ w) (service_type ++ "_eventtype"))
           (argv w)).
  set (pre := (event_data <-
                 match arg_at (argv w) 2 with
                 | Some text =>
                     try_catch (lift (json_loads text))
                       (fun e =>
                          match e with
                          | JSONDecodeError =>
                              Some (print "ERROR: Invalid JSON data provided: {e}"
                                          [AExn e] ;;
                                    sys_exit 1)
                          | _ => None
                          end)
                 | None =>
                     if String.eqb (lower event_type) "test" then ret (JObj [])
                     else build_event_data h
                 end ;;
               ret event_data)%monad).
  match goal with
  | |- exits (fst (try_except ?body ?hd w)) =>
      assert (Heq : try_except body hd w
                    = try_except
                        (a <- pre ;;
                         success <- Starrtrakt.handle_event cid csec h
                                      event_type a ;;
                         sys_exit (if (success : bool) then 0 else 1))%monad
                        hd w)
  end.
  { unfold try_except, try_catch, pre, bind at 1 2 3 4 5.
    rewrite env_set_eq. fold service_type.
    unfold bind at 1 2 3 4 5 6, getenv, sys_argv, ret.
    cbv beta iota zeta. fold h event_type.
    destruct (arg_at (argv w) 2) as [text | ].
    - unfold try_catch, lift. destruct (json_loads text) as [v | e];
        [reflexivity | ].
      destruct e; try reflexivity.
    - destruct (String.eqb (lower event_type) "test"); [reflexivity | ].
      destruct (build_event_data h w) as [[d | e] w1]; reflexivity. }
  rewrite Heq. apply exit_after.
  - intros a w'. apply handle_event_returns_starrtrakt.
  - intros e. unfold pre, bind, ret.
    destruct (arg_at (argv w) 2) as [text | ].
    + unfold try_catch, lift. destruct (json_loads text) as [v | e'] eqn:Hj;
        [discriminate | ].
      rewrite (json_loads_catchable _ _ Hj). cbn. intros [= <-]. now right.
    + destruct (String.eqb (lower event_type) "test"); [discriminate | ].
      pose proof (build_event_data_catchable h w) as Hb.
      destruct (build_event_data h w) as [[d | e'] w1]; cbn in *;
        [discriminate | ].
      intros [= <-]. now apply Hb.
  - reflexivity.
Qed.

(** X8.  Every run of either script ends with [sys.exit(0)] or
    [sys.exit(1)], whatever the environment, the arguments, the token file,
    the input and the network: no exception escapes [main]. *)
Theorem scripts_exit_zero_or_one (w : world) :
  exits (fst (Starrtrakt.script w)) /\ exits (fst (RadarrTrakt.script w)).
Proof.
  split.
  - unfold Starrtrakt.script, bind, getenv.
    destruct (env_missing (env_get (environ w) "TRAKT_CLIENT_ID")
              || env_missing (env_get (environ w) "TRAKT_CLIENT_SECRET"))%bool.
    + now right.
    + apply starrtrakt_main_exits.
  - unfold RadarrTrakt.script, bind, getenv. apply radarr_main_exits.
Qed.

Lemma arg_at_none args : arg_at args 1 = None -> arg_at args 2 = None.
Proof.
  unfold arg_at. intros H. apply nth_error_None in H. apply nth_error_None. lia.
Qed.

(** X9.  Run with both credentials, no event type in the environment and
    no argument, [starrtrakt.py] does the connection test and nothing else:
    the world it leaves is the one [test_connection] leaves, and it exits
    with status 0 when the test returned [True], with status 1 otherwise. *)
Theorem starrtrakt_default_is_test (w : world) (cid csec : string) (b : bool)
    (w' : world) :
  env_get (environ w) "TRAKT_CLIENT_ID" = Some cid -> nonempty cid = true ->
  env_get (environ w) "TRAKT_CLIENT_SECRET" = Some csec ->
  nonempty csec = true ->
  env_missing (env_get (environ w) "radarr_eventtype") = true ->
  env_missing (env_get (environ w) "sonarr_eventtype") = true ->
  arg_at (argv w) 1 = None ->
  Starrtrakt.test_connection (Some cid) (Some csec) w = (Ok b, w') ->
  Starrtrakt.script w = (Raise (SystemExit (if b then 0 else 1)), w').
Proof.
  intros Hid Hidn Hsec Hsecn Hr Hs Ha1 Htest.
  pose proof (arg_at_none _ Ha1) as Ha2.
  unfold Starrtrakt.script, bind at 1 2, getenv at 1 2.
  rewrite Hid, Hsec. cbn [env_missing]. rewrite Hidn, Hsecn. cbn [negb orb].
  unfold Starrtrakt.main, try_except, try_catch, bind at 1.
  rewrite env_set_eq, Hr. cbn [negb].
  unfold bind at 1 2 3, getenv at 1, sys_argv at 1.
  cbv beta iota zeta. cbn [append].
  assert (Het : event_type_of (env_get (environ w) "sonarr_eventtype") (argv w)
                = "test").
  { unfold event_type_of. rewrite Ha1.
    unfold env_missing in Hs.
    destruct (env_get (environ w) "sonarr_eventtype") as [[ | c s] | ];
      try reflexivity; discriminate. }
  rewrite Het, Ha2.
  assert (Hl : String.eqb (lower "test") "test" = true) by reflexivity.
  rewrite Hl. unfold bind, ret, Starrtrakt.handle_event.
  rewrite Hl, Htest. now destruct b.
Qed.

Lemma starrtrakt_default_is_test_witness :
  exit_status
    (fst (Starrtrakt.script
            (plain_run [Reply 200 (json_dumps (JObj [("username", JStr "bob")]))])))
  = 0
  /\ exit_status (fst (Starrtrakt.script (plain_run [Reply 503 "busy"]))) = 1.
Proof.
  split.
  - erewrite (starrtrakt_default_is_test
               (plain_run [Reply 200 (json_dumps (JObj [("username", JStr "bob")]))])
               "id" "secret" true);
      reflexivity.
  - erewrite (starrtrakt_default_is_test (plain_run [Reply 503 "busy"])
               "id" "secret" false);
      reflexivity.
Defined.

(** X10.  [starrtrakt.py] refuses to start without its credentials: when
    [TRAKT_CLIENT_ID] or [TRAKT_CLIENT_SECRET] is unset or empty, the script
    prints one error line and exits with status 1; the token file, the
    input and the network are not touched. *)
Theorem starrtrakt_startup_check (w : world) :
  (env_missing (env_get (environ w) "TRAKT_CLIENT_ID")
   || env_missing (env_get (environ w) "TRAKT_CLIENT_SECRET"))%bool = true ->
  Starrtrakt.script w
  = (Raise (SystemExit 1),
     emit (EvPrint "ERROR: TRAKT_CLIENT_ID and TRAKT_CLIENT_SECRET must be provided as environment variables." []) w).
Proof. exact (starrtrakt_requires_credentials w). Qed.

Lemma starrtrakt_startup_check_witness :
  let w := mkWorld [("TRAKT_CLIENT_ID", "id"); ("TRAKT_CLIENT_SECRET", EmptyString)]
             ["starrtrakt.py"; "seriesadd"] fresh_file
             (fun _ => inject_Z 2000) 0 [] [Reply 201 "{}"] [] in
  exit_status (fst (Starrtrakt.script w)) = 1
  /\ network (snd (Starrtrakt.script w)) = [Reply 201 "{}"].
Proof.
  cbv zeta.
  rewrite (starrtrakt_startup_check
             (mkWorld [("TRAKT_CLIENT_ID", "id"); ("TRAKT_CLIENT_SECRET", EmptyString)]
                ["starrtrakt.py"; "seriesadd"] fresh_file
                (fun _ => inject_Z 2000) 0 [] [Reply 201 "{}"] []) eq_refl).
  split; reflexivity.
Defined.

(** *** The HTTP helper *)

(** X11.  [http_post] does not raise on an HTTP status: once the request is
    answered it returns the body and the status of the answer, whatever the
    status; it raises [URLError] when there is no answer, and [TypeError],
    before sending anything, when a header value is [None].  It calls
    [urlopen] once, with a POST of the encoded data and a timeout of 10. *)
Theorem http_post_outcomes (url : string) (data : json)
    (headers : list (string * hval)) (w : world) :
  let rq := mkRequest "POST" url (Some (json_dumps data)) headers 10 in
  let run := http_post url data headers w in
  if existsb header_unset headers
  then run = (Raise TypeError, w)
  else
    trace (snd run) = EvUrlopen rq :: trace w
    /\ match network w with
       | Reply status body :: rest =>
           fst run = Ok (body, status) /\ network (snd run) = rest
       | NoReply reason :: rest =>
           fst run = Raise (URLError reason) /\ network (snd run) = rest
       | [] => exists reason, fst run = Raise (URLError reason)
       end.
Proof.
  cbv zeta. unfold http_post, try_catch, bind, urlopen, ret. cbn [rq_headers].
  destruct (existsb header_unset headers); [reflexivity | ].
  destruct (network w) as [ | [status body | reason] rest]; cbn.
  - split; [reflexivity | now eexists].
  - destruct (Z.leb 200 status && Z.ltb status 300)%bool; cbn; auto.
  - auto.
Qed.

(** *** The token file *)

(** X12.  What [trakt_save_tokens] wrote, [trakt_load_tokens] reads back:
    after saving a value whose dicts have no repeated key, loading returns
    that value, whatever the token file held before. *)
Theorem save_then_load (tokens : json) (w : world) :
  well_formed tokens ->
  (trakt_save_tokens tokens ;; trakt_load_tokens) w
  = (Ok tokens, set_token_file (Some (json_dump_indent2 tokens)) w).
Proof.
  intros Hwf. unfold bind, trakt_save_tokens, trakt_load_tokens. cbn.
  unfold json_dump_indent2. now rewrite (json_loads_encode true tokens Hwf).
Qed.

Lemma save_then_load_witness :
  fst ((trakt_save_tokens (token_record "a" "r" 5 7) ;; trakt_load_tokens)
         (world_at 0 stale_file [] []))
  = Ok (token_record "a" "r" 5 7).
Proof.
  rewrite (save_then_load (token_record "a" "r" 5 7) (world_at 0 stale_file [] [])).
  - reflexivity.
  - constructor.
    + cbn. repeat constructor; cbn; intuition discriminate.
    + repeat constructor.
Defined.




(** *** Without a refresh token *)

Lemma get_valid_tokens_unrefreshable cid csec w tokens :
  fst (trakt_load_tokens w) = Ok tokens ->
  truthy tokens = false \/ py_in "refresh_token" tokens = Ok false ->
  match trakt_is_token_expired tokens w with
  | (Ok true, w0) =>
      trakt_get_valid_tokens cid csec w
      = pin_authorization cid csec (if truthy tokens then w0 else w)
  | (Ok false, w0) =>
      trakt_get_valid_tokens cid csec w
      = (if truthy tokens then (Ok tokens, w0) else pin_authorization cid csec w)
  | (Raise e, w0) =>
      trakt_get_valid_tokens cid csec w
      = (if truthy tokens then (Raise e, w0) else pin_authorization cid csec w)
  end.
Proof.
  intros Hload Hno. unfold trakt_get_valid_tokens.
  rewrite (bind_ok _ _ _ _ _ (load_tokens_eq _ _ Hload)).
  destruct (truthy tokens) eqn:Ht.
  - destruct Hno as [Hno | Hno]; [discriminate | ]. rewrite Hno.
    destruct (trakt_is_token_expired tokens w) as [[[ | ] | e] w0] eqn:He;
      unfold bind at 1; unfold bind at 1; rewrite He; reflexivity.
  - unfold trakt_is_token_expired. rewrite Ht. reflexivity.
Qed.

(** X14.  Without a token file, with an empty record or with a record that
    has no [refresh_token], [trakt_get_valid_tokens] sends no refresh-token
    grant. *)
Theorem no_refresh_without_refresh_token (cid csec : option string)
    (w : world) (tokens : json) :
  fst (trakt_load_tokens w) = Ok tokens ->
  truthy tokens = false \/ py_in "refresh_token" tokens = Ok false ->
  refresh_exchanges (snd (trakt_get_valid_tokens cid csec w))
  = refresh_exchanges w.
Proof.
  intros Hload Hno.
  pose proof (get_valid_tokens_unrefreshable cid csec w tokens Hload Hno) as H.
  pose proof (is_token_expired_frame tokens w) as Hfr. cbv zeta in Hfr.
  assert (Hpin : forall w1, trace w1 = trace w ->
            refresh_exchanges (snd (pin_authorization cid csec w1))
            = refresh_exchanges w).
  { intros w1 Htr.
    pose proof (q_pin_authorization_gen is_refresh_exchange cid csec
                  (fun ev => match ev with
                             | EvUrlopen _ => fun H => match Bool.diff_true_false H with end
                             | _ => fun _ => eq_refl
                             end)
                  (pin_request_unselected cid csec) w1) as [Hq _].
    unfold quiet in Hq. unfold refresh_exchanges. now rewrite Hq, Htr. }
  destruct (trakt_is_token_expired tokens w) as [[[ | ] | e] w0];
    cbn [snd] in Hfr; destruct Hfr as [Htr _]; rewrite H.
  - apply Hpin. now destruct (truthy tokens).
  - destruct (truthy tokens); [ | now apply Hpin].
    unfold refresh_exchanges. cbn [snd]. now rewrite Htr.
  - destruct (truthy tokens); [ | now apply Hpin].
    unfold refresh_exchanges. cbn [snd]. now rewrite Htr.
Qed.

Lemma no_refresh_without_refresh_token_witness :
  let w := world_at 2000
             (Some (json_dumps (JObj [("access_token", JStr "at");
                                      ("created_at", JInt 1000);
                                      ("expires_in", JInt 100)])))
             ["1234"] [Reply 200 "{}"] in
  refresh_exchanges (snd (trakt_get_valid_tokens (Some "id") (Some "secret") w))
  = 0%nat
  /\ network_calls (snd (trakt_get_valid_tokens (Some "id") (Some "secret") w))
     = 1%nat.
Proof.
  cbv zeta. split; [ | reflexivity].
  rewrite (no_refresh_without_refresh_token (Some "id") (Some "secret") _
             (JObj [("access_token", JStr "at"); ("created_at", JInt 1000);
                    ("expires_in", JInt 100)])).
  - reflexivity.
  - reflexivity.
  - right. reflexivity.
Defined.

(** *** Authorization with a PIN *)

Lemma get_valid_tokens_first_run cid csec w :
  token_file w = None ->
  trakt_get_valid_tokens cid csec w = pin_authorization cid csec w.
Proof.
  intros Hfile.
  assert (Hload : fst (trakt_load_tokens w) = Ok JNull).
  { unfold trakt_load_tokens. now rewrite Hfile. }
  pose proof (get_valid_tokens_unrefreshable cid csec w JNull Hload
                (or_introl eq_refl)) as H.
  exact H.
Qed.

(** X15.  The first run, with no token file and a PIN typed in: one
    authorization-code grant carrying the stripped PIN is sent and nothing
    else.  When the answer is a 2xx whose body is JSON, that value is
    returned and is what the token file then holds; on any other answer an
    exception leaves the function and there is still no token file. *)
Theorem first_run_authorization (cid csec : option string) (w : world)
    (line : string) (lines : list string) :
  token_file w = None ->
  stdin w = line :: lines ->
  strip line <> EmptyString ->
  let run := trakt_get_valid_tokens cid csec w in
  requests_of (trace (snd run))
  = post_json_request oauth_token_url (pin_payload cid csec (strip line))
    :: requests_of (trace w)
  /\ match network w with
     | Reply status body :: _ =>
         if (Z.leb 200 status && Z.ltb status 300)%bool
         then match json_loads body with
              | Ok v => fst run = Ok v
                        /\ token_file (snd run) = Some (json_dump_indent2 v)
              | Raise e => fst run = Raise e /\ token_file (snd run) = None
              end
         else fst run = Raise (HTTPError status body)
              /\ token_file (snd run) = None
     | NoReply reason :: _ =>
         fst run = Raise (URLError reason) /\ token_file (snd run) = None
     | [] => (exists reason, fst run = Raise (URLError reason))
             /\ token_file (snd run) = None
     end.
Proof.
  intros Hfile Hin Hpin. cbv zeta.
  rewrite (get_valid_tokens_first_run cid csec w Hfile).
  unfold pin_authorization, trakt_get_new_tokens_with_pin, trakt_post_json,
    bind, print, input, urlopen, lift, trakt_save_tokens, log, ret, raise.
  cbn. rewrite Hin. cbn.
  destruct (strip line) as [ | c pin] eqn:Hs; [now destruct Hpin | ].
  cbn.
  destruct (network w) as [ | [status body | reason] rs]; cbn.
  - split; [reflexivity | ]. split; [now eexists | assumption].
  - destruct (Z.leb 200 status && Z.ltb status 300)%bool; cbn.
    + destruct (json_loads body) as [v | e]; cbn; auto.
    + auto.
  - auto.
Qed.

Lemma first_run_authorization_witness :
  let v := token_record "at" "rt" 1990 7776000 in
  let run := trakt_get_valid_tokens (Some "id") (Some "secret")
               (first_run [" 1234 "] [Reply 200 (json_dumps v)]) in
  fst run = Ok v /\ token_file (snd run) = Some (json_dump_indent2 v).
Proof.
  cbv zeta.
  pose proof (first_run_authorization (Some "id") (Some "secret")
                (first_run [" 1234 "]
                   [Reply 200 (json_dumps (token_record "at" "rt" 1990 7776000))])
                " 1234 " [] eq_refl eq_refl) as H.
  cbv zeta in H.
  assert (Hpin : strip " 1234 " <> EmptyString) by (vm_compute; discriminate).
  destruct (H Hpin) as [_ Hrun]. exact Hrun.
Defined.

(** *** Expiry over time *)

(** X16.  A record found expired stays expired: when
    [trakt_is_token_expired] answers [True] at one reading of the clock, it
    answers [True] for the same record at every later reading. *)
Theorem expired_stays_expired (tokens : json) (w1 w2 : world) :
  (now w1 <= now w2)%Q ->
  fst (trakt_is_token_expired tokens w1) = Ok true ->
  fst (trakt_is_token_expired tokens w2) = Ok true.
Proof.
  intros Hle H1.
  destruct (is_token_expired_cases tokens w1 true H1)
    as [[_ Hmiss] | (m & c & e & -> & Hc & He & Hb)].
  - unfold trakt_is_token_expired, bind, lift, ret.
    destruct (truthy tokens); [ | reflexivity].
    destruct Hmiss as [Hm | [Hm | Hm]]; [discriminate | | ].
    + now rewrite Hm.
    + destruct (py_in "created_at" tokens) as [[ | ] | ] eqn:Hcr; cbn.
      * now rewrite Hm.
      * reflexivity.
      * destruct tokens; cbn in Hm, Hcr; discriminate.
  - rewrite (is_token_expired_dict m w2 c e Hc He). cbn [fst]. f_equal.
    symmetry in Hb. apply negb_Qle_true in Hb. apply negb_Qle_true.
    eapply Qlt_le_trans; eassumption.
Qed.

Lemma expired_stays_expired_witness :
  fst (trakt_is_token_expired (token_record "at" "rt" 1000 100)
         (world_at 5000 None [] []))
  = Ok true.
Proof.
  apply (expired_stays_expired (token_record "at" "rt" 1000 100)
           (world_at 1041 None [] []) (world_at 5000 None [] [])).
  - vm_compute. discriminate.
  - reflexivity.
Defined.

(** *** The headers of a cached record *)

Lemma get_valid_tokens_cached cid csec w tokens w0 :
  fst (trakt_load_tokens w) = Ok tokens ->
  truthy tokens = true ->
  trakt_is_token_expired tokens w = (Ok false, w0) ->
  trakt_get_valid_tokens cid csec w = (Ok tokens, w0).
Proof.
  intros Hload Ht Hexp. unfold trakt_get_valid_tokens.
  rewrite (bind_ok _ _ _ _ _ (load_tokens_eq _ _ Hload)).
  rewrite Ht. unfold bind at 1. unfold bind at 1. now rewrite Hexp.
Qed.

(** X17.  With an unexpired record in the token file, [trakt_headers] sends
    nothing: it returns the four headers, the bearer being the record's
    [access_token] and the API key the client id, and it raises
    [KeyError('access_token')] when the record has no such entry. *)
Theorem cached_record_headers (cid csec : option string) (w : world)
    (tokens : json) :
  fst (trakt_load_tokens w) = Ok tokens ->
  fst (trakt_is_token_expired tokens w) = Ok false ->
  let run := trakt_headers cid csec w in
  trace (snd run) = trace w /\ network (snd run) = network w
  /\ token_file (snd run) = token_file w
  /\ exists m,
       tokens = JObj m
       /\ fst run = match dict_get m "access_token" with
                    | Some a => Ok (bearer_headers cid a)
                    | None => Raise (KeyError "access_token")
                    end.
Proof.
  intros Hload Hexp. cbv zeta.
  destruct (is_token_expired_cases tokens w false Hexp)
    as [[Hb _] | (m & c & e & -> & Hc & He & Hb)]; [discriminate | ].
  pose proof (is_token_expired_frame (JObj m) w) as Hfr. cbv zeta in Hfr.
  assert (Ht : truthy (JObj m) = true).
  { unfold int_field in Hc. destruct m; [discriminate | reflexivity]. }
  unfold trakt_headers.
  rewrite (bind_ok _ _ _ _ _
             (get_valid_tokens_cached cid csec w _ _ Hload Ht
                (run_eq _ _ _ Hexp))).
  unfold bind, lift, ret. cbn [py_getitem].
  destruct Hfr as (Htr & Hnet & Hfile & _).
  destruct (dict_get m "access_token") as [a | ] eqn:Da; cbn [fst snd];
    repeat split; try assumption; exists m; rewrite Da; auto.
Qed.

Lemma cached_record_headers_witness :
  fst (trakt_headers (Some "id") (Some "secret")
         (world_at 2000
            (Some (json_dumps (JObj [("created_at", JInt 1000);
                                     ("expires_in", JInt 7776000)])))
            [] []))
  = Raise (KeyError "access_token").
Proof.
  destruct (cached_record_headers (Some "id") (Some "secret")
              (world_at 2000
                 (Some (json_dumps (JObj [("created_at", JInt 1000);
                                          ("expires_in", JInt 7776000)])))
                 [] [])
              (JObj [("created_at", JInt 1000); ("expires_in", JInt 7776000)])
              eq_refl eq_refl) as (_ & _ & _ & m & Hm & Hrun).
  inversion Hm; subst m. exact Hrun.
Defined.

(** *** [test_connection] *)

(** X18.  [test_connection] returns a boolean in every world, in
    [starrtrakt.py] and in [common.py]: whatever the token file, the input
    and the network do, no exception leaves it. *)
Theorem test_connection_returns (cid csec : option string) (w : world) :
  (exists b, fst (Starrtrakt.test_connection cid csec w) = Ok b)
  /\ (exists b, fst (Common.test_connection cid csec w) = Ok b).
Proof.
  split.
  - apply starrtrakt_test_connection_returns.
  - apply common_test_connection_returns.
Qed.

(** *** An answer under 400 *)

Lemma http_post_answered url data headers w status body rs :
  existsb header_unset headers = false ->
  network w = Reply status body :: rs ->
  http_post url data headers w
  = (Ok (body, status),
     set_network rs
       (emit (EvUrlopen (mkRequest "POST" url (Some (json_dumps data)) headers 10))
          w)).
Proof.
  intros Hh Hn. unfold http_post, try_catch, bind, urlopen, ret.
  cbn [rq_headers]. rewrite Hh, Hn.
  now destruct (Z.leb 200 status && Z.ltb status 300)%bool.
Qed.

(** X19.  Any status under 400 counts as success for
    [_make_watchlist_request], the 3xx ones included: once the headers are
    built, a first answer under 400 ends the call after that one request,
    a POST of [{"movies": [item]}] (or [{"shows": [item]}] for a series) to
    the endpoint of the action.  The result is the decoded body, [{}] when
    the body is empty, and [JSONDecodeError] when the body is not JSON. *)
Theorem watchlist_answer_under_400 (cid csec : option string)
    (action media_type : string) (item : json) (w w1 : world)
    (headers : list (string * hval)) (status : Z) (body : string)
    (rs : list reply) :
  let payload := watchlist_payload media_type item in
  trakt_headers cid csec (emit (announce_event action payload) w)
  = (Ok headers, w1) ->
  existsb header_unset headers = false ->
  network w1 = Reply status body :: rs ->
  status < 400 ->
  _make_watchlist_request cid csec action media_type item w
  = (if nonempty body then json_loads body else Ok (JObj []),
     set_network rs
       (emit (EvUrlopen (mkRequest "POST" (watchlist_url action)
                           (Some (json_dumps payload)) headers 10))
          w1)).
Proof.
  cbv zeta. intros Hh Hset Hn Hst.
  unfold _make_watchlist_request, watchlist_loop, range2. cbn [for_in].
  unfold bind at 1. unfold log_event at 1.
  unfold bind at 1. unfold bind at 1. unfold watchlist_attempt at 1.
  unfold bind at 1. rewrite Hh.
  unfold bind at 1.
  rewrite (http_post_answered _ _ _ _ _ _ _ Hset Hn).
  assert (H401 : (status =? 401)%Z = false) by (apply Z.eqb_neq; lia).
  assert (H400 : (status >=? 400)%Z = false) by (rewrite Z.geb_leb; apply Z.leb_gt; lia).
  rewrite H401, H400. cbn [andb]. unfold watchlist_url.
  destruct (nonempty body); [ | reflexivity].
  unfold bind, lift, ret. now destruct (json_loads body).
Qed.

Lemma watchlist_answer_under_400_witness :
  let item := JObj [("ids", JObj [("tmdb", JInt 55)])] in
  let w := world_at 2000 fresh_file [] [Reply 307 EmptyString] in
  fst (_make_watchlist_request (Some "id") (Some "secret") "add" "series"
         item w)
  = Ok (JObj [])
  /\ List.length
       (requests_of
          (trace (snd (_make_watchlist_request (Some "id") (Some "secret")
                         "add" "series" item w))))
     = 1%nat.
Proof.
  cbv zeta.
  rewrite (watchlist_answer_under_400 (Some "id") (Some "secret") "add"
             "series" (JObj [("ids", JObj [("tmdb", JInt 55)])])
             (world_at 2000 fresh_file [] [Reply 307 EmptyString])
             (snd (trakt_headers (Some "id") (Some "secret")
                     (emit (announce_event "add"
                              (watchlist_payload "series"
                                 (JObj [("ids", JObj [("tmdb", JInt 55)])])))
                        (world_at 2000 fresh_file [] [Reply 307 EmptyString]))))
             (bearer_headers (Some "id") (JStr "at")) 307 EmptyString []
             eq_refl eq_refl eq_refl eq_refl).
  split; reflexivity.
Defined.

(** *** Event data on the command line *)



(** X21.  A hook whose year or numeric identifier variable is not an
    integer is not handled by [radarr_trakt.py]: the [ValueError] of
    [int()] leaves [build_event_data], the script prints the fatal error
    and exits with status 1, and nothing else happened. *)
Theorem radarr_bad_number_is_fatal (cid csec : option string) (w : world)
    (e : exn) :
  arg_at (argv w) 2 = None ->
  fst (build_event_data Common.RadarrEventHandler w) = Raise e ->
  RadarrTrakt.main cid csec w
  = (Raise (SystemExit 1), emit (EvPrint "FATAL ERROR: {e}" [AExn ValueError]) w).
Proof.
  intros Harg Hraise.
  destruct (build_event_data_cases Common.RadarrEventHandler w)
    as (Hw & He & _).
  rewrite (He e Hraise) in Hraise.
  unfold RadarrTrakt.main, try_except, try_catch.
  unfold bind at 1. unfold getenv at 1.
  unfold bind at 1. unfold sys_argv at 1.
  cbv beta iota zeta. rewrite Harg.
  unfold bind at 1. rewrite (run_eq _ _ _ Hraise), Hw. reflexivity.
Qed.

Lemma radarr_bad_number_is_fatal_witness :
  let w := mkWorld [("radarr_eventtype", "MovieAdded");
                    ("radarr_movie_title", "Foo");
                    ("radarr_movie_year", "MMXX")]
             ["radarr_trakt.py"] fresh_file (fun _ => inject_Z 2000) 0 []
             [Reply 201 "{}"] [] in
  exit_status (fst (RadarrTrakt.main (Some "id") (Some "secret") w)) = 1
  /\ network (snd (RadarrTrakt.main (Some "id") (Some "secret") w))
     = [Reply 201 "{}"].
Proof.
  cbv zeta.
  rewrite (radarr_bad_number_is_fatal (Some "id") (Some "secret")
             (mkWorld [("radarr_eventtype", "MovieAdded");
                       ("radarr_movie_title", "Foo");
                       ("radarr_movie_year", "MMXX")]
                ["radarr_trakt.py"] fresh_file (fun _ => inject_Z 2000) 0 []
                [Reply 201 "{}"] [])
             ValueError eq_refl eq_refl).
  split; reflexivity.
Defined.

(** *** The two [handle_event] methods *)

(** X22.  The [handle_event] of [common.py] and that of [starrtrakt.py]
    differ on the test event only: on every other event type they do the
    same thing, in every world and for every data. *)
Theorem handle_event_agree (cid csec : option string) (h : handler)
    (event_type : string) (event_data : json) (w : world) :
  lower event_type <> "test" ->
  Common.handle_event cid csec h event_type event_data w
  = Starrtrakt.handle_event cid csec h event_type event_data w.
Proof.
  intros Hne. apply String.eqb_neq in Hne.
  unfold Common.handle_event, Starrtrakt.handle_event. rewrite Hne.
  reflexivity.
Qed.

Lemma handle_event_agree_witness :
  Common.handle_event (Some "id") (Some "secret") sonarr_handler "SeriesAdd"
    (JObj [("title", JStr "Foo"); ("tvdbId", JInt 7)])
    (world_at 2000 fresh_file [] [Reply 201 "{}"])
  = Starrtrakt.handle_event (Some "id") (Some "secret") sonarr_handler
      "SeriesAdd" (JObj [("title", JStr "Foo"); ("tvdbId", JInt 7)])
      (world_at 2000 fresh_file [] [Reply 201 "{}"]).
Proof.
  apply (handle_event_agree (Some "id") (Some "secret") sonarr_handler
           "SeriesAdd").
  vm_compute. discriminate.
Defined.
